(** * Baral Photo Studio: booking-form validation and carousel paging

    A shallow embedding of the client-side logic of the site:

    - the v2.0.0 script ([validateFormData], [handleFormSubmit],
      [isValidEmail], [isValidPhone]),
    - the "enhanced" script of [js/main.js] (inline submit handler with a
      honeypot and a simulated send),
    - the first script of [js/main.js] (carousel, hover handlers and the
      older submit handler that only checks character sets),
    - around them: [debounce], [throttle], [getTodayISO], the mobile
      menus, the active link of the navigation, the portfolio filter, the
      category switcher and the message under the form.

    JavaScript strings are sequences of UTF-16 code units; they are
    modelled as lists of code units.  Regular expressions are embedded as
    syntax trees and run by derivatives.  Time values are integers
    (milliseconds since the epoch); the arithmetic of the carousel is
    given over exact rationals and over binary64.  Handlers that touch the
    page are functions on a record of the parts of the page they read and
    write; timers are events of a step function. *)

From Stdlib Require Import List Bool Arith ZArith NArith QArith Qround Lia.
From Stdlib Require Import Ascii String.
From Stdlib Require Import Floats.
From Stdlib Require Uint63.
Import ListNotations.

Close Scope Q_scope.

(** ** JavaScript strings *)

Module JS.

(** A UTF-16 code unit. *)
Definition char := N.

Definition jsstring := list char.

(** A literal of the source, read as code units. *)
Definition lit (s : string) : jsstring :=
  List.map N_of_ascii (list_ascii_of_string s).

(** [s === ''] *)
Definition isEmpty (s : jsstring) : bool :=
  match s with [] => true | _ :: _ => false end.

(** ECMAScript WhiteSpace and LineTerminator code points: the set that
    [String.prototype.trim] strips and that [\s] matches. *)
Definition isWhiteSpace (c : char) : bool :=
  ((9 <=? c) && (c <=? 13)                  (* TAB LF VT FF CR *)
   || (c =? 32) || (c =? 160)               (* SP NBSP *)
   || (c =? 5760)                           (* U+1680 *)
   || ((8192 <=? c) && (c <=? 8202))        (* U+2000 .. U+200A *)
   || (c =? 8232) || (c =? 8233)            (* LS PS *)
   || (c =? 8239) || (c =? 8287)            (* U+202F U+205F *)
   || (c =? 12288) || (c =? 65279))%N.      (* U+3000 U+FEFF *)

(** [\d] without the unicode flag: ASCII digits only. *)
Definition isDigit (c : char) : bool := ((48 <=? c) && (c <=? 57))%N.

Fixpoint dropWhile (p : char -> bool) (s : jsstring) : jsstring :=
  match s with
  | [] => []
  | c :: s' => if p c then dropWhile p s' else s
  end.

Definition trimStart (s : jsstring) : jsstring := dropWhile isWhiteSpace s.

Definition trimEnd (s : jsstring) : jsstring :=
  rev (dropWhile isWhiteSpace (rev s)).

(** [s.trim()] *)
Definition trim (s : jsstring) : jsstring := trimEnd (trimStart s).

(** [s.replace(/\D/g, '')] *)
Definition stripNonDigits (s : jsstring) : jsstring := filter isDigit s.

End JS.

Import JS.

(** ** Regular expressions *)

Module Regex.

(** The fragment of the regular-expression syntax that the scripts use:
    character classes, concatenation and [+].  Both patterns of the
    source are anchored with [^] and [$], so [test] is a match of the
    whole string. *)
Inductive regex : Type :=
| Void : regex
| Eps : regex
| Class : (char -> bool) -> regex
| Cat : regex -> regex -> regex
| Alt : regex -> regex -> regex
| Star : regex -> regex.

(** [r+] *)
Definition Plus (r : regex) : regex := Cat r (Star r).

Definition Chr (c : char) : regex := Class (N.eqb c).

Fixpoint nullable (r : regex) : bool :=
  match r with
  | Void => false
  | Eps => true
  | Class _ => false
  | Cat r1 r2 => nullable r1 && nullable r2
  | Alt r1 r2 => nullable r1 || nullable r2
  | Star _ => true
  end.

Fixpoint deriv (c : char) (r : regex) : regex :=
  match r with
  | Void => Void
  | Eps => Void
  | Class p => if p c then Eps else Void
  | Cat r1 r2 =>
      if nullable r1
      then Alt (Cat (deriv c r1) r2) (deriv c r2)
      else Cat (deriv c r1) r2
  | Alt r1 r2 => Alt (deriv c r1) (deriv c r2)
  | Star r1 => Cat (deriv c r1) (Star r1)
  end.

(** [/^r$/.test(s)] *)
Fixpoint test (r : regex) (s : jsstring) : bool :=
  match s with
  | [] => nullable r
  | c :: s' => test (deriv c r) s'
  end.

(** The language of a regular expression. *)
Inductive Matches : regex -> jsstring -> Prop :=
| MEps : Matches Eps []
| MClass p c : p c = true -> Matches (Class p) [c]
| MCat r1 r2 s1 s2 :
    Matches r1 s1 -> Matches r2 s2 -> Matches (Cat r1 r2) (s1 ++ s2)
| MAltL r1 r2 s : Matches r1 s -> Matches (Alt r1 r2) s
| MAltR r1 r2 s : Matches r2 s -> Matches (Alt r1 r2) s
| MStarNil r : Matches (Star r) []
| MStarCons r s1 s2 :
    Matches r s1 -> Matches (Star r) s2 -> Matches (Star r) (s1 ++ s2).

(** Every class of [r] only accepts code units satisfying [P]. *)
Fixpoint classesWithin (P : char -> Prop) (r : regex) : Prop :=
  match r with
  | Void | Eps => True
  | Class p => forall c, p c = true -> P c
  | Cat r1 r2 | Alt r1 r2 => classesWithin P r1 /\ classesWithin P r2
  | Star r1 => classesWithin P r1
  end.

End Regex.

Import Regex.

(** ** Dates *)

Module JSDate.

Local Open Scope Z_scope.

Definition msPerDay : Z := 86400000.
Definition msPerMinute : Z := 60000.

Definition isLeapYear (y : Z) : bool :=
  ((y mod 4 =? 0) && negb (y mod 100 =? 0) || (y mod 400 =? 0))%Z.

Definition daysInMonth (y m : Z) : Z :=
  if (m =? 2)%Z then (if isLeapYear y then 29 else 28)
  else if ((m =? 4) || (m =? 6) || (m =? 9) || (m =? 11))%Z then 30
  else 31.

(** Day number of a proleptic Gregorian date, day 0 being 1970-01-01. *)
Definition daysFromCivil (y m d : Z) : Z :=
  let y' := if (m <=? 2)%Z then y - 1 else y in
  let era := y' / 400 in
  let yoe := y' - era * 400 in
  let mp := if (2 <? m)%Z then m - 3 else m + 9 in
  let doy := (153 * mp + 2) / 5 + d - 1 in
  let doe := yoe * 365 + yoe / 4 - yoe / 100 + doy in
  era * 146097 + doe - 719468.

Definition digitValue (c : char) : option Z :=
  if isDigit c then Some (Z.of_N c - 48) else None.

Fixpoint digitsValue (acc : Z) (s : jsstring) : option Z :=
  match s with
  | [] => Some acc
  | c :: s' =>
      match digitValue c with
      | Some v => digitsValue (10 * acc + v) s'
      | None => None
      end
  end.

Definition hyphen : char := 45%N.

(** The date-only form [YYYY-MM-DD] of the ECMAScript date-time string
    format, which is what a date control holds.  It denotes midnight UTC
    of that day; the result is the time value in milliseconds. *)
Definition parseISODate (s : jsstring) : option Z :=
  match s with
  | [y1; y2; y3; y4; h1; m1; m2; h2; d1; d2] =>
      if (h1 =? hyphen)%N && (h2 =? hyphen)%N then
        match digitsValue 0 [y1; y2; y3; y4],
              digitsValue 0 [m1; m2],
              digitsValue 0 [d1; d2] with
        | Some y, Some m, Some d =>
            if ((1 <=? m) && (m <=? 12) && (1 <=? d) && (d <=? daysInMonth y m))%Z
            then Some (daysFromCivil y m d * msPerDay)
            else None
        | _, _, _ => None
        end
      else None
  | _ => None
  end.

(** The time value of [new Date(s)]; [None] is the invalid date (NaN).
    Strings outside the date-only form are left to [fallback], the
    implementation-defined part of [Date.parse]. *)
Definition parse (fallback : jsstring -> option Z) (s : jsstring) : option Z :=
  match parseISODate s with
  | Some t => Some t
  | None => fallback s
  end.

(** The time value of [d.setHours(0, 0, 0, 0)] for a date whose time value
    is [t], in a zone whose local time is UTC plus [tz] minutes (the
    offset is taken as constant over the day). *)
Definition setHoursZero (tz t : Z) : Z :=
  ((t + tz * msPerMinute) / msPerDay) * msPerDay - tz * msPerMinute.

(** The local calendar day (as a day number) of the time value [t]. *)
Definition localDay (tz t : Z) : Z := (t + tz * msPerMinute) / msPerDay.

(** [a < b] on dates, [b] being a valid date: false when [a] is invalid. *)
Definition ltDate (a : option Z) (b : Z) : bool :=
  match a with
  | Some t => (t <? b)%Z
  | None => false
  end.

End JSDate.

(** ** The v2.0.0 validator *)

Record FormData : Type := mkFormData {
  firstName : jsstring;
  lastName : jsstring;
  email : jsstring;
  phone : jsstring;
  date : jsstring;
  serviceType : jsstring;
  message : jsstring
}.

(** What [validateFormData] reads besides its argument: the honeypot
    control ([DOM.honeypot], absent when the page has no such element),
    the clock and the time zone. *)
Record Env : Type := mkEnv {
  honeypot : option jsstring;
  now : Z;
  tzOffsetMinutes : Z;
  dateParseFallback : jsstring -> option Z
}.

Module Validation.

(** The object [{ isValid, message }] that [validateFormData] returns. *)
Record result : Type := mkResult {
  isValid : bool;
  message : jsstring
}.

End Validation.

Definition at_sign : char := 64%N.
Definition dot : char := 46%N.

(** [[^\s@]] *)
Definition notSpaceNorAt (c : char) : bool :=
  negb (isWhiteSpace c || (c =? at_sign)%N).

(** [/^[^\s@]+@[^\s@]+\.[^\s@]+$/] *)
Definition emailRegex : regex :=
  Cat (Plus (Class notSpaceNorAt))
      (Cat (Chr at_sign)
           (Cat (Plus (Class notSpaceNorAt))
                (Cat (Chr dot) (Plus (Class notSpaceNorAt))))).

Definition isValidEmail (email : jsstring) : bool := test emailRegex email.

Definition isValidPhone (phone : jsstring) : bool :=
  let digits := stripNonDigits phone in
  (10 <=? List.length digits)%nat.

Definition requiredFields : list (FormData -> jsstring) :=
  [firstName; lastName; email; phone; date; serviceType].

(** [!data[field] || data[field].trim() === ''] *)
Definition fieldMissing (v : jsstring) : bool :=
  isEmpty v || isEmpty (trim v).

(** The loop over [requiredFields]: whether it returns. *)
Definition someFieldMissing (data : FormData) : bool :=
  existsb (fun field => fieldMissing (field data)) requiredFields.

(** [DOM.honeypot && DOM.honeypot.value.trim() !== ''] *)
Definition honeypotFilled (env : Env) : bool :=
  match honeypot env with
  | Some v => negb (isEmpty (trim v))
  | None => false
  end.

(** [selectedDate < today], with [selectedDate = new Date(data.date)] and
    [today] the present moment after [setHours(0, 0, 0, 0)]. *)
Definition dateInPast (env : Env) (data : FormData) : bool :=
  let selectedDate := JSDate.parse (dateParseFallback env) (date data) in
  let today := JSDate.setHoursZero (tzOffsetMinutes env) (now env) in
  JSDate.ltDate selectedDate today.

Definition msgSpam : jsstring := lit "Spam detected.".
Definition msgRequired : jsstring := lit "Please fill in all required fields.".
Definition msgEmail : jsstring := lit "Please enter a valid email address.".
Definition msgPhone : jsstring :=
  lit "Please enter a valid phone number (minimum 10 digits).".
Definition msgDate : jsstring := lit "Please select a date in the future.".

(** [validateFormData]: five tests in a row, each returning its own
    object, then the object of success. *)
Definition validateFormData (env : Env) (data : FormData) : Validation.result :=
  if honeypotFilled env then Validation.mkResult false msgSpam
  else if someFieldMissing data
  then Validation.mkResult false msgRequired
  else if negb (isValidEmail (email data))
  then Validation.mkResult false msgEmail
  else if negb (isValidPhone (phone data))
  then Validation.mkResult false msgPhone
  else if dateInPast env data
  then Validation.mkResult false msgDate
  else Validation.mkResult true [].

(** The reason codes of the specification and the objects that stand for
    them in the code. *)
Inductive ReasonCode : Type :=
| Spam | MissingField | BadEmail | BadPhone | PastDate.

Inductive ValidationResult : Type :=
| Valid : ValidationResult
| Invalid : ReasonCode -> ValidationResult.

Definition reasonMessage (r : ReasonCode) : jsstring :=
  match r with
  | Spam => msgSpam
  | MissingField => msgRequired
  | BadEmail => msgEmail
  | BadPhone => msgPhone
  | PastDate => msgDate
  end.

Definition render (v : ValidationResult) : Validation.result :=
  match v with
  | Valid => Validation.mkResult true []
  | Invalid r => Validation.mkResult false (reasonMessage r)
  end.

(** Whether the rule behind a reason code is violated, each rule taken on
    its own. *)
Definition violates (env : Env) (data : FormData) (r : ReasonCode) : bool :=
  match r with
  | Spam => honeypotFilled env
  | MissingField => someFieldMissing data
  | BadEmail => negb (isValidEmail (email data))
  | BadPhone => negb (isValidPhone (phone data))
  | PastDate => dateInPast env data
  end.

(** The order of the rules as the specification lists it. *)
Definition ruleOrder : list ReasonCode :=
  [Spam; MissingField; BadEmail; BadPhone; PastDate].

(** The specification's validator: the first violated rule of [ruleOrder],
    and nothing after it. *)
Definition spec_validate (env : Env) (data : FormData) : ValidationResult :=
  match find (violates env data) ruleOrder with
  | Some r => Invalid r
  | None => Valid
  end.

(** ** The submit handler of the enhanced script ([js/main.js]) *)

Module Enhanced.

(** The [data] object of the handler: five controls are trimmed, the date
    and the service type are taken as they are. *)
Definition collect (raw : FormData) : FormData :=
  mkFormData (trim (firstName raw)) (trim (lastName raw))
             (trim (email raw)) (trim (phone raw))
             (date raw) (serviceType raw) (trim (message raw)).

(** [Object.values(data)], in insertion order. *)
Definition values (data : FormData) : list jsstring :=
  [firstName data; lastName data; email data; phone data;
   date data; serviceType data; message data].

(** [Object.values(data).some((v, i) => i !== 6 && v === '')] *)
Definition someRequiredEmpty (data : FormData) : bool :=
  existsb (fun iv => negb (fst iv =? 6)%nat && isEmpty (snd iv))
          (combine (seq 0 (List.length (values data))) (values data)).

(** What the handler does before its timer: it either writes a status
    text (and possibly adds the [error] class) and returns, or announces
    the send and starts the timer. *)
Inductive outcome : Type :=
| Rejected (text : jsstring) (addsErrorClass : bool)
| Sending (data : FormData).

Definition onSubmit (company : jsstring) (raw : FormData) : outcome :=
  if negb (isEmpty (trim company)) then Rejected (lit "Spam detected.") false
  else
    let data := collect raw in
    if someRequiredEmpty data
    then Rejected (lit "Please fill required fields.") true
    else if negb (test emailRegex (email data))
    then Rejected (lit "Invalid email.") true
    else if (List.length (stripNonDigits (phone data)) <? 10)%nat
    then Rejected (lit "Invalid phone.") true
    else Sending data.

End Enhanced.

(** ** The submit handler of the first script ([js/main.js]) *)

Module Legacy.

(** The controls the handler looks at: the values of the controls selected
    by [input[required], select[required]], and the [#email] and [#phone]
    controls when the page has them. *)
Record Form : Type := mkForm {
  requiredValues : list jsstring;
  emailInput : option jsstring;
  phoneInput : option jsstring
}.

(** [[\d\+\-\(\)\s]] *)
Definition phoneChar (c : char) : bool :=
  (isDigit c || (c =? 43) || (c =? 45) || (c =? 40) || (c =? 41)
   || isWhiteSpace c)%N.

(** [/^[\d\+\-\(\)\s]+$/] *)
Definition phonePattern : regex := Plus (Class phoneChar).

(** The value of [isValid] when the handler reaches [if (isValid)]. *)
Definition onSubmit (f : Form) : bool :=
  let isValid := true in
  let isValid :=
    fold_left (fun acc value => if isEmpty (trim value) then false else acc)
              (requiredValues f) isValid in
  let isValid :=
    match emailInput f with
    | Some value =>
        if negb (isEmpty value) && negb (test emailRegex value)
        then false else isValid
    | None => isValid
    end in
  let isValid :=
    match phoneInput f with
    | Some value =>
        if negb (isEmpty value) && negb (test phonePattern value)
        then false else isValid
    | None => isValid
    end in
  isValid.

(** Modelled from the spec: which controls carry the [required] attribute
    is decided by the page's markup, which is not among the sources; the
    six required fields of the specification are taken, with both the
    [#email] and the [#phone] control present. *)
Definition formOf (data : FormData) : Form :=
  mkForm (List.map (fun field => field data) requiredFields)
         (Some (email data)) (Some (phone data)).

End Legacy.

(** ** The submission sequencer of the v2.0.0 script *)

Module Sequencer.

Inductive Timer : Type :=
| SendTimer       (* [setTimeout(resolve, CONFIG.formSubmitDelay)] *)
| StatusTimer     (* [setTimeout(clearFormStatus, 5000)] *)
| DebounceTimer.  (* the timer of [debounce] around the input listener *)

Definition Timer_eqb (a b : Timer) : bool :=
  match a, b with
  | SendTimer, SendTimer | StatusTimer, StatusTimer
  | DebounceTimer, DebounceTimer => true
  | _, _ => false
  end.

Inductive StatusClass : Type := NoClass | SuccessClass | ErrorClass.

(** What a handler does to the page, in order. *)
Inductive Action : Type :=
| ShowFormStatus (msg : jsstring) (isError : bool)
| ClearFormStatus
| ResetForm
| SetTimeout (t : Timer) (ms : Z)
| ClearTimeout (t : Timer).

Definition formSubmitDelay : Z := 600.

Definition msgSending : jsstring := lit "Sending your request...".
Definition msgThanks : jsstring :=
  lit "Thank you! Your booking request has been sent. We will contact you shortly.".

(** [handleFormSubmit] up to its [await]. *)
Definition handleFormSubmit (env : Env) (formData : FormData) : list Action :=
  let validation := validateFormData env formData in
  if negb (Validation.isValid validation)
  then [ShowFormStatus (Validation.message validation) true]
  else [ShowFormStatus msgSending false; SetTimeout SendTimer formSubmitDelay].

(** [handleFormSubmit] after its [await]: the promise only ever resolves,
    so the [catch] branch is never taken. *)
Definition handleFormSubmitResumed : list Action :=
  [ShowFormStatus msgThanks false; ResetForm; SetTimeout StatusTimer 5000].

(** The page as far as the form is concerned; the form and its status
    element ([DOM.bookingForm], [DOM.formStatus]) are present. *)
Record Page : Type := mkPage {
  fields : FormData;          (* the values of the controls *)
  defaults : FormData;        (* the values [reset] restores *)
  statusText : jsstring;
  statusClass : StatusClass;
  pending : list (Timer * Z)  (* timers set and not yet fired *)
}.

Fixpoint removeFirst (t : Timer) (l : list (Timer * Z)) : list (Timer * Z) :=
  match l with
  | [] => []
  | (t', ms) :: l' => if Timer_eqb t t' then l' else (t', ms) :: removeFirst t l'
  end.

Definition isPending (t : Timer) (p : Page) : bool :=
  existsb (fun e => Timer_eqb t (fst e)) (pending p).

Definition perform (p : Page) (a : Action) : Page :=
  match a with
  | ShowFormStatus msg isError =>
      mkPage (fields p) (defaults p) msg
             (if isError then ErrorClass else SuccessClass) (pending p)
  | ClearFormStatus =>
      mkPage (fields p) (defaults p) [] NoClass (pending p)
  | ResetForm =>
      mkPage (defaults p) (defaults p) (statusText p) (statusClass p) (pending p)
  | SetTimeout t ms =>
      mkPage (fields p) (defaults p) (statusText p) (statusClass p)
             (pending p ++ [(t, ms)])
  | ClearTimeout t =>
      mkPage (fields p) (defaults p) (statusText p) (statusClass p)
             (removeFirst t (pending p))
  end.

Definition performAll (p : Page) (actions : list Action) : Page :=
  fold_left perform actions p.

Inductive Event : Type :=
| Submit                      (* the form's [submit] event *)
| Input (edited : FormData)   (* the user edits a control *)
| Fires (t : Timer).          (* a pending timer runs out *)

(** The listener that [debounce] wraps: clear the status if it is an
    error.  ([later] also calls [clearTimeout] on its own timer, which has
    fired by then.) *)
Definition clearErrorStatus (p : Page) : list Action :=
  match statusClass p with
  | ErrorClass => [ClearFormStatus]
  | _ => []
  end.

(** The actions an event triggers on a page. *)
Definition react (env : Env) (p : Page) (ev : Event) : list Action :=
  match ev with
  | Submit => handleFormSubmit env (fields p)
  | Input _ => [ClearTimeout DebounceTimer; SetTimeout DebounceTimer 300]
  | Fires SendTimer => handleFormSubmitResumed
  | Fires StatusTimer => [ClearFormStatus]
  | Fires DebounceTimer => clearErrorStatus p
  end.

(** The page an event starts from: an edit changes a control, a timer that
    fires is no longer pending. *)
Definition before (p : Page) (ev : Event) : Page :=
  match ev with
  | Submit => p
  | Input edited =>
      mkPage edited (defaults p) (statusText p) (statusClass p) (pending p)
  | Fires t =>
      mkPage (fields p) (defaults p) (statusText p) (statusClass p)
             (removeFirst t (pending p))
  end.

(** An event can happen when it is a user event or a pending timer. *)
Definition enabled (p : Page) (ev : Event) : bool :=
  match ev with
  | Fires t => isPending t p
  | _ => true
  end.

Definition step (env : Env) (p : Page) (ev : Event) : Page :=
  performAll (before p ev) (react env p ev).

(** The states of the specification, read off the pending timers. *)
Inductive Phase : Type := Idle | InSending | Sent.

Definition phase (p : Page) : Phase :=
  if isPending SendTimer p then InSending
  else if isPending StatusTimer p then Sent
  else Idle.

(** *** Runs *)

(** A run of the page: the page, the number of submits the validator has
    accepted so far and the number of times the form has been reset. *)
Record Run : Type := mkRun {
  page : Page;
  accepted : nat;
  resets : nat
}.

Definition isReset (a : Action) : bool :=
  match a with ResetForm => true | _ => false end.

Definition acceptedBy (env : Env) (p : Page) (ev : Event) : nat :=
  match ev with
  | Submit =>
      if Validation.isValid (validateFormData env (fields p)) then 1 else 0
  | _ => 0
  end.

(** One event of a run, at the clock and page of [env]; an event that is
    not enabled cannot happen. *)
Definition stepRun (r : Run) (e : Env * Event) : option Run :=
  if enabled (page r) (snd e)
  then Some (mkRun (step (fst e) (page r) (snd e))
                   (accepted r + acceptedBy (fst e) (page r) (snd e))
                   (resets r
                    + List.length (filter isReset
                                          (react (fst e) (page r) (snd e)))))
  else None.

Fixpoint runFrom (r : Run) (trace : list (Env * Event)) : option Run :=
  match trace with
  | [] => Some r
  | e :: trace' =>
      match stepRun r e with
      | Some r' => runFrom r' trace'
      | None => None
      end
  end.

(** The number of send timers that have not fired yet. *)
Definition isSend (e : Timer * Z) : bool := Timer_eqb SendTimer (fst e).

Definition pendingSends (p : Page) : nat :=
  List.length (filter isSend (pending p)).

End Sequencer.

(** ** The carousel of the first script ([js/main.js]) *)

Module Carousel.

(** [window.innerWidth >= 768 ? 3 : 1] *)
Definition itemsPerPage (innerWidth : Z) : Z :=
  if (768 <=? innerWidth)%Z then 3%Z else 1%Z.

(** [Math.ceil(carouselItems.length / itemsPerPage)], the page count of
    [initCarouselDots].  Numbers are taken as exact rationals: for a list
    length and a divisor of 1 or 3 the quotient rounds to the same
    integer. *)
Definition computePageCount (itemCount itemsPerPage : Z) : Z :=
  Qceiling (inject_Z itemCount / inject_Z itemsPerPage)%Q.

(** [-(index * (100 / itemsPerPage))], the [slidePercentage] of
    [moveCarousel]. *)
Definition pageOffsetPercent (index itemsPerPage : Z) : Q :=
  (- (inject_Z index * (100 / inject_Z itemsPerPage)))%Q.

(** The page count as the specification words it. *)
Definition spec_pageCount (itemCount itemsPerPage : Z) : Z :=
  Z.max 1 (Qceiling (inject_Z itemCount / inject_Z itemsPerPage)%Q).

(** The carousel of the active category: one flag per dot (whether it has
    the [active] class) and the translation of the track, in percent. *)
Record State : Type := mkState {
  dots : list bool;
  translateX : Q
}.

(** The dots [initCarouselDots] creates: [pageCount] of them, the first
    one active.  The track is not moved. *)
Definition initCarouselDots (itemCount innerWidth : Z) (c : State) : State :=
  let pageCount := computePageCount itemCount (itemsPerPage innerWidth) in
  mkState (List.map (fun i => i =? 0) (seq 0 (Z.to_nat pageCount)))
          (translateX c).

Definition moveCarousel (innerWidth : Z) (index : nat) (c : State) : State :=
  mkState (dots c)
          (pageOffsetPercent (Z.of_nat index) (itemsPerPage innerWidth)).

(** Dot [i] carries [dataset.index = i]; it is active afterwards exactly
    when that equals [index]. *)
Definition updateActiveDot (index : nat) (c : State) : State :=
  mkState (List.map (fun i => i =? index) (seq 0 (List.length (dots c))))
          (translateX c).

(** The [forEach] of [autoScrollCarousel]: the index of the last dot that
    has the [active] class, 0 when none has. *)
Definition findActiveIndex (ds : list bool) : nat :=
  fold_left (fun activeIndex (dot : nat * bool) =>
               if snd dot then fst dot else activeIndex)
            (combine (seq 0 (List.length ds)) ds) 0.

(** [(activeIndex + 1) % dots.length] *)
Definition advance (pageCount activeIndex : nat) : nat :=
  (activeIndex + 1) mod pageCount.

(** [autoScrollCarousel], an active category being present. *)
Definition autoScrollCarousel (innerWidth : Z) (c : State) : State :=
  match dots c with
  | [] => c
  | _ :: _ =>
      let activeIndex := findActiveIndex (dots c) in
      let activeIndex := advance (List.length (dots c)) activeIndex in
      updateActiveDot activeIndex (moveCarousel innerWidth activeIndex c)
  end.

(** The dots of a carousel of [pageCount] pages showing page [pageIndex]. *)
Definition dotsAt (pageCount pageIndex : nat) : list bool :=
  List.map (fun i => i =? pageIndex) (seq 0 pageCount).

(** *** Hovering and the interval timers *)

(** The interval timers that are running (by id), the id the next
    [setInterval] returns, whether the pointer is over the carousel, and
    the carousel itself. *)
Record Page : Type := mkPage {
  running : list nat;
  nextTimerId : nat;
  hovering : bool;
  carousel : State
}.

(** The id that [const autoScrollInterval = setInterval(...)] holds. *)
Definition autoScrollInterval : nat := 0.

(** The page once the script has run: the first interval is running. *)
Definition initial (c : State) : Page :=
  mkPage [autoScrollInterval] (S autoScrollInterval) false c.

Inductive Event : Type :=
| MouseEnter
| MouseLeave
| Tick (id : nat).   (* the interval [id] runs out once more *)

Definition clearInterval (id : nat) (l : list nat) : list nat :=
  filter (fun i => negb (i =? id)) l.

Definition isRunning (id : nat) (p : Page) : bool :=
  existsb (Nat.eqb id) (running p).

Definition step (innerWidth : Z) (p : Page) (ev : Event) : Page :=
  match ev with
  | MouseEnter =>
      mkPage (clearInterval autoScrollInterval (running p))
             (nextTimerId p) true (carousel p)
  | MouseLeave =>
      mkPage (running p ++ [nextTimerId p]) (S (nextTimerId p)) false
             (carousel p)
  | Tick id =>
      if isRunning id p
      then mkPage (running p) (nextTimerId p) (hovering p)
                  (autoScrollCarousel innerWidth (carousel p))
      else p
  end.

Definition run (innerWidth : Z) (p : Page) (evs : list Event) : Page :=
  fold_left (step innerWidth) evs p.

(** The step relation: user events are always possible, a tick only for
    an interval that is running. *)
Inductive steps (innerWidth : Z) : Page -> Event -> Page -> Prop :=
| StepEnter p : steps innerWidth p MouseEnter (step innerWidth p MouseEnter)
| StepLeave p : steps innerWidth p MouseLeave (step innerWidth p MouseLeave)
| StepTick p id :
    isRunning id p = true ->
    steps innerWidth p (Tick id) (step innerWidth p (Tick id)).

Inductive reachable (innerWidth : Z) (c0 : State) : Page -> Prop :=
| ReachInit : reachable innerWidth c0 (initial c0)
| ReachStep p ev p' :
    reachable innerWidth c0 p -> steps innerWidth p ev p' ->
    reachable innerWidth c0 p'.

(** Auto-advance fires in [p]: some running interval can tick. *)
Definition autoAdvanceCanFire (p : Page) : bool :=
  match running p with [] => false | _ :: _ => true end.

End Carousel.

(** ** The carousel arithmetic in binary64 *)

(** The numbers of the script are doubles.  The two computations of the
    carousel are given here over doubles, next to their exact versions in
    [Carousel]. *)
Module Double.

(** A non-negative integer below [2^63] as a Number. *)
Definition toNumber (z : Z) : float := PrimFloat.of_uint63 (Uint63.of_Z z).

(** [Math.ceil(x)] as an integer; [None] for NaN and the infinities. *)
Definition ceil (x : float) : option Z :=
  match Prim2SF x with
  | S754_zero _ => Some 0%Z
  | S754_finite s m e =>
      let n := if s then Z.neg m else Z.pos m in
      Some (if (0 <=? e)%Z then n * 2 ^ e else - ((- n) / 2 ^ (- e)))%Z
  | _ => None
  end.

(** [Math.ceil(carouselItems.length / itemsPerPage)] *)
Definition computePageCount (itemCount itemsPerPage : Z) : option Z :=
  ceil (toNumber itemCount / toNumber itemsPerPage).

(** [-(index * (100 / itemsPerPage))] *)
Definition pageOffsetPercent (index itemsPerPage : float) : float :=
  (- (index * (100 / itemsPerPage)))%float.

End Double.

(** ** Sample inputs *)

Module Examples.

Local Open Scope Z_scope.

(** Noon of 2024-12-15, local time, in a zone at UTC+5:45. *)
Definition kathmandu : Env :=
  mkEnv (Some [])
        (JSDate.daysFromCivil 2024 12 15 * JSDate.msPerDay + 22500000)
        345 (fun _ => None).

(** Noon of 2024-12-15, local time, in a zone at UTC-5:00. *)
Definition newYork : Env :=
  mkEnv (Some [])
        (JSDate.daysFromCivil 2024 12 15 * JSDate.msPerDay + 61200000)
        (-300) (fun _ => None).

(** The same instant as [kathmandu], the honeypot filled in. *)
Definition robot : Env :=
  mkEnv (Some (lit "ACME Ltd")) (now kathmandu) 345 (fun _ => None).

Definition today : jsstring := lit "2024-12-15".
Definition yesterday : jsstring := lit "2024-12-14".

(** A booking that breaks no rule on 2024-12-15. *)
Definition booking : FormData :=
  mkFormData (lit "Ann") (lit "Lee") (lit "a@b.c") (lit "123-456-7890")
             today (lit "wedding") [].

Definition withEmail (v : jsstring) (d : FormData) : FormData :=
  mkFormData (firstName d) (lastName d) v (phone d) (date d)
             (serviceType d) (message d).

Definition withPhone (v : jsstring) (d : FormData) : FormData :=
  mkFormData (firstName d) (lastName d) (email d) v (date d)
             (serviceType d) (message d).

Definition withDate (v : jsstring) (d : FormData) : FormData :=
  mkFormData (firstName d) (lastName d) (email d) (phone d) v
             (serviceType d) (message d).

Definition withFirstName (v : jsstring) (d : FormData) : FormData :=
  mkFormData v (lastName d) (email d) (phone d) (date d)
             (serviceType d) (message d).

Definition blank : FormData := mkFormData [] [] [] [] [] [] [].

(** The page at rest, the controls holding [f]. *)
Definition idlePage (f : FormData) : Sequencer.Page :=
  Sequencer.mkPage f blank [] Sequencer.NoClass [].

(** A carousel of three pages showing the first one. *)
Definition threePages : Carousel.State :=
  Carousel.mkState (Carousel.dotsAt 3 0) 0%Q.

(** The pointer enters the carousel, leaves it and enters it again. *)
Definition hoverAgain : list Carousel.Event :=
  [Carousel.MouseEnter; Carousel.MouseLeave; Carousel.MouseEnter].

End Examples.

(** ** [debounce] and [throttle] of the v2.0.0 script *)

Module Debounce.

Section Debounced.

(** The arguments of a call of the debounced function. *)
Variable A : Type.

(** The closure of [debounce(func, wait)]: the variable [timeout]
    ([None] while it is undefined), the timers that are set and have not
    run out (each with the arguments its [later] closes over), the id the
    next [setTimeout] returns, and the calls of [func] so far. *)
Record State : Type := mkState {
  timeout : option nat;
  timers : list (nat * A);
  nextId : nat;
  calls : list A
}.

Definition initial : State := mkState None [] 0 [].

(** [clearTimeout(timeout)]; clearing an id that is not set does
    nothing. *)
Definition clearTimeout (id : option nat) (l : list (nat * A)) :
    list (nat * A) :=
  match id with
  | Some i => filter (fun e => negb (fst e =? i)) l
  | None => l
  end.

(** [executedFunction(...args)] *)
Definition executedFunction (args : A) (s : State) : State :=
  mkState (Some (nextId s))
          (clearTimeout (timeout s) (timers s) ++ [(nextId s, args)])
          (S (nextId s))
          (calls s).

(** [later], closed over [args] *)
Definition later (args : A) (s : State) : State :=
  mkState (timeout s) (clearTimeout (timeout s) (timers s)) (nextId s)
          (calls s ++ [args]).

Inductive Event : Type :=
| Call (args : A)
| Fire (id : nat).

(** A timer that runs out is no longer set and runs its [later]; an id
    that is not set cannot fire. *)
Definition step (s : State) (ev : Event) : State :=
  match ev with
  | Call args => executedFunction args s
  | Fire id =>
      match find (fun e => fst e =? id) (timers s) with
      | Some (_, args) =>
          later args
                (mkState (timeout s)
                         (filter (fun e => negb (fst e =? id)) (timers s))
                         (nextId s) (calls s))
      | None => s
      end
  end.

Definition run (s : State) (evs : list Event) : State :=
  fold_left step evs s.

(** What the closure keeps: no timer is set, or exactly the one whose id
    [timeout] holds. *)
Definition settled (s : State) : Prop :=
  timers s = []
  \/ exists id args,
       timeout s = Some id /\ timers s = [(id, args)] /\ id < nextId s.

End Debounced.

Arguments mkState {A}.
Arguments timeout {A}.
Arguments timers {A}.
Arguments nextId {A}.
Arguments calls {A}.
Arguments initial {A}.
Arguments clearTimeout {A}.
Arguments executedFunction {A}.
Arguments later {A}.
Arguments Call {A}.
Arguments Fire {A}.
Arguments step {A}.
Arguments run {A}.
Arguments settled {A}.

End Debounce.

Module Throttle.

Section Throttled.

Variable A : Type.

(** The closure of [throttle(func, limit)]: the flag [inThrottle], the
    number of reset timers that have not run out, the calls of [func] so
    far and the number of resets that have run. *)
Record State : Type := mkState {
  inThrottle : bool;
  resetTimers : nat;
  calls : list A;
  resetsRun : nat
}.

Definition initial : State := mkState false 0 [] 0.

Inductive Event : Type :=
| Call (args : A)
| Fire.

Definition step (s : State) (ev : Event) : State :=
  match ev with
  | Call args =>
      if inThrottle s then s
      else mkState true (S (resetTimers s)) (calls s ++ [args]) (resetsRun s)
  | Fire =>
      match resetTimers s with
      | S n => mkState false n (calls s) (S (resetsRun s))
      | O => s
      end
  end.

Definition run (s : State) (evs : list Event) : State :=
  fold_left step evs s.

(** The flag is up exactly while a reset timer is set, and every call of
    the function is matched by a reset that has run or is still to run. *)
Definition balanced (s : State) : Prop :=
  resetTimers s = (if inThrottle s then 1 else 0)
  /\ List.length (calls s) = resetsRun s + resetTimers s.

End Throttled.

Arguments balanced {A}.
Arguments mkState {A}.
Arguments inThrottle {A}.
Arguments resetTimers {A}.
Arguments calls {A}.
Arguments resetsRun {A}.
Arguments initial {A}.
Arguments Call {A}.
Arguments Fire {A}.
Arguments step {A}.
Arguments run {A}.

End Throttle.

(** ** The mobile menu *)

(** The menu of the v2.0.0 script. *)
Module Menu.

Inductive Focus : Type := OnHamburger | OnFirstNavLink | Elsewhere.

(** The attributes and classes the menu functions read and write.
    [ariaExpanded] is whether the hamburger's [aria-expanded] reads
    ['true'], [overlayAriaHidden] whether the overlay's [aria-hidden]
    does; [hasNavLinks] whether [DOM.navLinks[0]] exists. *)
Record State : Type := mkState {
  ariaExpanded : bool;
  hamburgerActive : bool;
  navMenuActive : bool;
  overlayActive : bool;
  overlayAriaHidden : bool;
  bodyMenuOpen : bool;
  focus : Focus;
  hasNavLinks : bool
}.

Definition toggleMobileMenu (s : State) : State :=
  let isExpanded := ariaExpanded s in
  let newState := negb isExpanded in
  mkState newState newState newState newState (negb newState) newState
          (if newState
           then (if hasNavLinks s then OnFirstNavLink else focus s)
           else OnHamburger)
          (hasNavLinks s).

Definition closeMobileMenu (s : State) : State :=
  mkState false false false false true false (focus s) (hasNavLinks s).

(** The listeners of [initNavigation]. *)
Inductive Event : Type :=
| ClickHamburger
| ClickOverlay
| ClickNavLink
| KeyEscape.

Definition step (s : State) (ev : Event) : State :=
  match ev with
  | ClickHamburger => toggleMobileMenu s
  | ClickOverlay => closeMobileMenu s
  | ClickNavLink | KeyEscape =>
      if navMenuActive s then closeMobileMenu s else s
  end.

Definition run (s : State) (evs : list Event) : State :=
  fold_left step evs s.

(** All signs of the menu say the same. *)
Definition consistent (s : State) : Prop :=
  hamburgerActive s = ariaExpanded s
  /\ navMenuActive s = ariaExpanded s
  /\ overlayActive s = ariaExpanded s
  /\ bodyMenuOpen s = ariaExpanded s
  /\ overlayAriaHidden s = negb (ariaExpanded s).

(** The menu closed, the focus somewhere on the page. *)
Definition closed : State :=
  mkState false false false false true false Elsewhere true.

End Menu.

(** The menu of the enhanced script ([js/main.js]). *)
Module EnhancedMenu.

Record State : Type := mkState {
  ariaExpanded : bool;
  hamburgerActive : bool;
  navMenuActive : bool
}.

(** [classList.toggle] without a second argument flips the class. *)
Definition toggleMenu (s : State) : State :=
  let expanded := ariaExpanded s in
  mkState (negb expanded) (negb (hamburgerActive s)) (negb (navMenuActive s)).

Inductive Event : Type :=
| ClickHamburger
| ClickNavLink.

Definition step (s : State) (ev : Event) : State :=
  match ev with
  | ClickHamburger => toggleMenu s
  | ClickNavLink => if navMenuActive s then toggleMenu s else s
  end.

Definition run (s : State) (evs : list Event) : State :=
  fold_left step evs s.

Definition closed : State := mkState false false false.

End EnhancedMenu.

(** ** Comparing strings *)

Module StrictEq.

(** [s === t] on strings. *)
Definition str (s t : jsstring) : bool :=
  if list_eq_dec N.eq_dec s t then true else false.

(** [a === b] on values that are strings or [undefined] (or [null]),
    written [None]. *)
Definition opt (a b : option jsstring) : bool :=
  match a, b with
  | Some s, Some t => str s t
  | None, None => true
  | _, _ => false
  end.

End StrictEq.

(** ** The active link of the navigation (v2.0.0) *)

Module NavLinks.

(** A [section[id]] of the page. *)
Record PageSection : Type := mkSection {
  offsetTop : Z;
  offsetHeight : Z;
  sectionId : jsstring
}.

(** A link of the menu: its [href] attribute ([None] when it has none),
    whether it has the class [active], whether it has [aria-current]. *)
Record Link : Type := mkLink {
  href : option jsstring;
  active : bool;
  ariaCurrent : bool
}.

Definition hash : char := 35%N.

(** [link.getAttribute('href') === `#${sectionId}`] *)
Definition pointsTo (id : jsstring) (l : Link) : bool :=
  StrictEq.opt (href l) (Some (hash :: id)).

(** The inner [forEach]: every link loses the class and the attribute,
    and the links to the section get them. *)
Definition markLinks (id : jsstring) (links : list Link) : list Link :=
  List.map (fun l =>
              if pointsTo id l
              then mkLink (href l) true true
              else mkLink (href l) false false)
           links.

(** [scrollPos >= sectionTop && scrollPos < sectionTop + sectionHeight] *)
Definition contains (scrollPos : Q) (sec : PageSection) : bool :=
  Qle_bool (inject_Z (offsetTop sec)) scrollPos
  && negb (Qle_bool (inject_Z (offsetTop sec + offsetHeight sec)) scrollPos).

Definition updateActiveNavLink
    (sections : list PageSection) (scrollY : Q) (links : list Link) :
    list Link :=
  let scrollPos := (scrollY + 150)%Q in
  fold_left (fun ls sec =>
               if contains scrollPos sec then markLinks (sectionId sec) ls
               else ls)
            sections links.

End NavLinks.

(** ** The portfolio filter (v2.0.0) *)

Module Portfolio.

Inductive Display : Type := FromStyleSheet | Block | NoDisplay.

(** A portfolio item: its [data-category] ([None] when it has none), its
    inline [display] and whether it has the class [visible]. *)
Record Item : Type := mkItem {
  category : option jsstring;
  display : Display;
  visible : bool
}.

(** [category === 'all' || itemCategory === category] *)
Definition shouldShow (filter : option jsstring) (item : Item) : bool :=
  StrictEq.opt filter (Some (lit "all"))
  || StrictEq.opt (category item) filter.

Definition filterPortfolio (filter : option jsstring) (items : list Item) :
    list Item :=
  List.map (fun item =>
              mkItem (category item)
                     (if shouldShow filter item then Block else NoDisplay)
                     (visible item || shouldShow filter item))
           items.

(** The clicks on filter buttons, one after the other. *)
Definition clicks (filters : list (option jsstring)) (items : list Item) :
    list Item :=
  fold_left (fun its f => filterPortfolio f its) filters items.

End Portfolio.

(** ** The categories and their carousels (first script of [js/main.js]) *)

Module Gallery.

(** A [.carousel-category]: its id, its classes [hidden] and [active],
    the number of its [.carousel-item]s and the translation of its
    [.carousel-container], in percent ([None] when it has no
    container). *)
Record Category : Type := mkCategory {
  id : jsstring;
  hidden : bool;
  active : bool;
  itemCount : Z;
  container : option Q
}.

(** The page: the categories in document order, the dots, the category id
    the click listeners of the dots hold, and the width of the window.
    The ids of the page are those of the categories. *)
Record Doc : Type := mkDoc {
  categories : list Category;
  dots : list bool;
  dotsFor : jsstring;
  innerWidth : Z
}.

(** [document.getElementById(id)]: the first element with the id; no
    element has the empty id. *)
Definition getElementById (cid : jsstring) (cats : list Category) :
    option Category :=
  if isEmpty cid then None
  else find (fun c => StrictEq.str (id c) cid) cats.

(** [document.querySelector('.carousel-category.active')] *)
Definition activeCategory (cats : list Category) : option Category :=
  find active cats.

(** Set the translation of the first category with the id. *)
Fixpoint setTransform (cid : jsstring) (t : Q) (cats : list Category) :
    list Category :=
  match cats with
  | [] => []
  | c :: cats' =>
      if StrictEq.str (id c) cid
      then mkCategory (id c) (hidden c) (active c) (itemCount c) (Some t)
           :: cats'
      else c :: setTransform cid t cats'
  end.

(** [initCarouselDots(categoryId)]; the element [.carousel-dots] is
    present. *)
Definition initCarouselDots (categoryId : jsstring) (d : Doc) : Doc :=
  match getElementById categoryId (categories d) with
  | None => d
  | Some category =>
      match container category with
      | None => d
      | Some _ =>
          let itemsPerPage := Carousel.itemsPerPage (innerWidth d) in
          let pageCount :=
            Carousel.computePageCount (itemCount category) itemsPerPage in
          mkDoc (categories d)
                (Carousel.dotsAt (Z.to_nat pageCount) 0)
                categoryId (innerWidth d)
      end
  end.

(** [moveCarousel(categoryId, index)]; [None] when it throws (no element
    with the id, or no container in it). *)
Definition moveCarousel (categoryId : jsstring) (index : nat) (d : Doc) :
    option Doc :=
  match getElementById categoryId (categories d) with
  | None => None
  | Some category =>
      match container category with
      | None => None
      | Some _ =>
          let itemsPerPage := Carousel.itemsPerPage (innerWidth d) in
          let slidePercentage :=
            Carousel.pageOffsetPercent (Z.of_nat index) itemsPerPage in
          Some (mkDoc (setTransform categoryId slidePercentage (categories d))
                      (dots d) (dotsFor d) (innerWidth d))
      end
  end.

Definition updateActiveDot (index : nat) (d : Doc) : Doc :=
  mkDoc (categories d)
        (List.map (fun i => i =? index) (seq 0 (List.length (dots d))))
        (dotsFor d) (innerWidth d).

(** The click listener of a category item whose [data-category] is
    [category]. *)
Definition categoryClick (category : jsstring) (d : Doc) : Doc :=
  let shown :=
    List.map (fun cat =>
                if StrictEq.str (id cat) category
                then mkCategory (id cat) false true (itemCount cat)
                                (match container cat with
                                 | Some _ => Some 0%Q
                                 | None => None
                                 end)
                else mkCategory (id cat) true (active cat) (itemCount cat)
                                (container cat))
             (categories d) in
  initCarouselDots category
    (mkDoc shown (dots d) (dotsFor d) (innerWidth d)).

(** The click listener of dot [i]. *)
Definition dotClick (i : nat) (d : Doc) : Doc :=
  match moveCarousel (dotsFor d) i d with
  | Some d' => updateActiveDot i d'
  | None => d
  end.

(** [autoScrollCarousel]; a call that throws leaves the page as it
    was. *)
Definition autoScrollCarousel (d : Doc) : Doc :=
  match activeCategory (categories d) with
  | None => d
  | Some category =>
      match dots d with
      | [] => d
      | _ :: _ =>
          let activeIndex := Carousel.findActiveIndex (dots d) in
          let activeIndex :=
            Carousel.advance (List.length (dots d)) activeIndex in
          match moveCarousel (id category) activeIndex d with
          | Some d' => updateActiveDot activeIndex d'
          | None => d
          end
      end
  end.

(** The [resize] listener, the window being [width] wide afterwards. *)
Definition resize (width : Z) (d : Doc) : Doc :=
  let d' := mkDoc (categories d) (dots d) (dotsFor d) width in
  match activeCategory (categories d') with
  | Some category => initCarouselDots (id category) d'
  | None => d'
  end.

Inductive Event : Type :=
| CategoryClick (category : jsstring)
| DotClick (i : nat)
| Tick
| Resize (width : Z).

Definition step (d : Doc) (ev : Event) : Doc :=
  match ev with
  | CategoryClick category => categoryClick category d
  | DotClick i => dotClick i d
  | Tick => autoScrollCarousel d
  | Resize width => resize width d
  end.

Definition run (d : Doc) (evs : list Event) : Doc :=
  fold_left step evs d.

(** The translation of the first category with the id. *)
Definition transformOf (cid : jsstring) (d : Doc) : option Q :=
  match find (fun c => StrictEq.str (id c) cid) (categories d) with
  | Some c => container c
  | None => None
  end.

(** The flags of the first category with the id. *)
Definition hiddenOf (cid : jsstring) (d : Doc) : option bool :=
  option_map hidden (find (fun c => StrictEq.str (id c) cid) (categories d)).

(** What a step may do to a category: it keeps its id and its items, and
    it does not take the class [active] away. *)
Definition keeps (c c' : Category) : Prop :=
  id c' = id c /\ itemCount c' = itemCount c
  /\ (active c = true -> active c' = true).

(** Two categories, the first one shown and active, four items each. *)
Definition twoCategories : Doc :=
  mkDoc [mkCategory (lit "wedding") false true 4 (Some 0%Q);
         mkCategory (lit "portrait") true false 4 (Some 0%Q)]
        (Carousel.dotsAt 2 0) (lit "wedding") 1024.

End Gallery.

(** ** [getTodayISO] *)

Module ISODate.

Local Open Scope Z_scope.

(** Year of the era (a 400-year cycle that starts on a first of March),
    month and day of the day [doe] of an era. *)
Definition fromDayOfEra (doe : Z) : Z * Z * Z :=
  let yoe := (doe - doe / 1460 + doe / 36524 - doe / 146096) / 365 in
  let doy := doe - (365 * yoe + yoe / 4 - yoe / 100) in
  let mp := (5 * doy + 2) / 153 in
  let d := doy - (153 * mp + 2) / 5 + 1 in
  let m := if mp <? 10 then mp + 3 else mp - 9 in
  (yoe, m, d).

(** Year, month and day (UTC) of the day number [z], day 0 being
    1970-01-01. *)
Definition civilFromDays (z : Z) : Z * Z * Z :=
  let z := z + 719468 in
  let era := z / 146097 in
  let doe := z - era * 146097 in
  let '(yoe, m, d) := fromDayOfEra doe in
  (yoe + era * 400 + (if m <=? 2 then 1 else 0), m, d).

Definition digitChar (v : Z) : char := Z.to_N (48 + v).

Definition pad2 (n : Z) : jsstring :=
  [digitChar (n / 10); digitChar (n mod 10)].

Definition pad4 (n : Z) : jsstring :=
  [digitChar (n / 1000); digitChar (n / 100 mod 10);
   digitChar (n / 10 mod 10); digitChar (n mod 10)].

(** [new Date(t).toISOString().split('T')[0]] for the years 0000 to 9999;
    [None] for the other years, whose six-digit form is left out. *)
Definition toISODate (t : Z) : option jsstring :=
  let '(y, m, d) := civilFromDays (t / JSDate.msPerDay) in
  if (0 <=? y) && (y <=? 9999)
  then Some (pad4 y ++ [JSDate.hyphen] ++ pad2 m ++ [JSDate.hyphen] ++ pad2 d)
  else None.

(** [getTodayISO()], the value of [dateInput.min]. *)
Definition getTodayISO (env : Env) : option jsstring := toISODate (now env).

(** What the day [doe] of an era has to satisfy for the conversion to be
    right in every era. *)
Definition dayOfEraChecked (doe : Z) : bool :=
  let '(yoe, m, d) := fromDayOfEra doe in
  let y := yoe + (if m <=? 2 then 1 else 0) in
  (0 <=? yoe) && (yoe <=? 399)
  && (1 <=? m) && (m <=? 12)
  && (1 <=? d) && (d <=? JSDate.daysInMonth y m)
  && (JSDate.daysFromCivil y m d =? doe - 719468)
  && (negb ((m <=? 2) && (yoe =? 399)) || (146037 <=? doe)).

(** [f] holds of the [n] integers from [z] on. *)
Fixpoint allFrom (f : Z -> bool) (n : nat) (z : Z) : bool :=
  match n with
  | O => true
  | S n' => f z && allFrom f n' (z + 1)
  end.

End ISODate.

(** ** The message under the form (first script of [js/main.js]) *)

Module FormMessage.

(** A [.form-message] element: which element it is, its text, whether it
    has the classes of success (of an error otherwise), and whether it has
    the class [opacity-0]. *)
Record Message : Type := mkMessage {
  element : nat;
  text : jsstring;
  success : bool;
  faded : bool
}.

Inductive Timer : Type :=
| FadeTimer (element : nat)     (* the timer of 5000 ms *)
| RemoveTimer (element : nat).  (* the timer of 300 ms *)

Definition Timer_eqb (a b : Timer) : bool :=
  match a, b with
  | FadeTimer e, FadeTimer e' | RemoveTimer e, RemoveTimer e' => e =? e'
  | _, _ => false
  end.

Definition timerElement (t : Timer) : nat :=
  match t with FadeTimer e | RemoveTimer e => e end.

(** The messages in the container of the form, in document order, the
    element the next [createElement] gives, and the timers that are
    set. *)
Record State : Type := mkState {
  shown : list Message;
  nextElement : nat;
  timers : list Timer
}.

Definition initial : State := mkState [] 0 [].

(** [showFormMessage(message, type)] *)
Definition showFormMessage (message type : jsstring) (s : State) : State :=
  let withoutExisting :=
    match shown s with
    | [] => []
    | _ :: others => others
    end in
  mkState (withoutExisting
           ++ [mkMessage (nextElement s) message
                         (StrictEq.str type (lit "success")) false])
          (S (nextElement s))
          (timers s ++ [FadeTimer (nextElement s)]).

Fixpoint removeTimer (t : Timer) (l : list Timer) : list Timer :=
  match l with
  | [] => []
  | t' :: l' => if Timer_eqb t t' then l' else t' :: removeTimer t l'
  end.

Inductive Event : Type :=
| Show (message type : jsstring)
| Fire (t : Timer).

(** A timer that is set runs out: the first one fades its element and
    sets the second one, which removes the element. *)
Definition step (s : State) (ev : Event) : State :=
  match ev with
  | Show message type => showFormMessage message type s
  | Fire t =>
      if existsb (Timer_eqb t) (timers s) then
        match t with
        | FadeTimer e =>
            mkState (List.map (fun m => if element m =? e
                                        then mkMessage (element m) (text m)
                                                       (success m) true
                                        else m)
                              (shown s))
                    (nextElement s)
                    (removeTimer t (timers s) ++ [RemoveTimer e])
        | RemoveTimer e =>
            mkState (filter (fun m => negb (element m =? e)) (shown s))
                    (nextElement s)
                    (removeTimer t (timers s))
        end
      else s
  end.

Definition run (s : State) (evs : list Event) : State :=
  fold_left step evs s.

End FormMessage.

(** * Properties *)

(** ** Strings *)

Lemma dropWhile_all (p : char -> bool) (pre s : jsstring) :
  Forall (fun c => p c = true) pre -> dropWhile p (pre ++ s) = dropWhile p s.
Proof.
  induction 1 as [|c pre Hc _ IH]; simpl; [reflexivity|].
  now rewrite Hc.
Qed.

Lemma dropWhile_stops (p : char -> bool) (s : jsstring) :
  (forall c s', s = c :: s' -> p c = false) -> dropWhile p s = s.
Proof.
  destruct s as [|c s']; simpl; intros H; [reflexivity|].
  now rewrite (H c s' eq_refl).
Qed.

Lemma filter_dropWhile (p q : char -> bool) (s : jsstring) :
  (forall c, q c = true -> p c = false) ->
  filter p (dropWhile q s) = filter p s.
Proof.
  intros Hpq. induction s as [|c s IH]; simpl; [reflexivity|].
  destruct (q c) eqn:Hq; [|reflexivity].
  now rewrite (Hpq c Hq).
Qed.

Lemma filter_rev (p : char -> bool) (s : jsstring) :
  filter p (rev s) = rev (filter p s).
Proof.
  induction s as [|c s IH]; simpl; [reflexivity|].
  rewrite filter_app, IH. simpl.
  destruct (p c); simpl; [reflexivity | now rewrite app_nil_r].
Qed.

Lemma whitespace_not_digit (c : char) :
  isWhiteSpace c = true -> isDigit c = false.
Proof.
  unfold isWhiteSpace, isDigit. intros H.
  rewrite !orb_true_iff, !andb_true_iff in H.
  rewrite andb_false_iff, !N.leb_gt.
  rewrite ?N.leb_le, ?N.eqb_eq in H. lia.
Qed.

(** Trimming removes no digit. *)
Lemma stripNonDigits_trim (s : jsstring) :
  stripNonDigits (trim s) = stripNonDigits s.
Proof.
  unfold stripNonDigits, trim, trimEnd, trimStart.
  rewrite filter_rev, filter_dropWhile by apply whitespace_not_digit.
  rewrite filter_rev, rev_involutive.
  apply filter_dropWhile, whitespace_not_digit.
Qed.

(** A string without white space is its own trimming. *)
Lemma trim_no_whitespace (s : jsstring) :
  Forall (fun c => isWhiteSpace c = false) s -> trim s = s.
Proof.
  intros H. unfold trim, trimEnd, trimStart.
  rewrite (dropWhile_stops isWhiteSpace s).
  - rewrite dropWhile_stops; [apply rev_involutive|].
    intros c s' E. rewrite Forall_forall in H. apply H.
    apply in_rev. rewrite E. now left.
  - intros c s' E. subst s. now inversion H.
Qed.

(** Trimming white space put around a string without white space gives
    the string back. *)
Lemma trim_padded (pre core post : jsstring) :
  Forall (fun c => isWhiteSpace c = true) pre ->
  Forall (fun c => isWhiteSpace c = true) post ->
  Forall (fun c => isWhiteSpace c = false) core ->
  trim (pre ++ core ++ post) = core.
Proof.
  intros Hpre Hpost Hcore. unfold trim, trimEnd, trimStart.
  rewrite dropWhile_all by assumption.
  destruct core as [|c core].
  - simpl. rewrite <- (app_nil_r post) at 1.
    rewrite dropWhile_all by assumption. reflexivity.
  - assert (Hc : isWhiteSpace c = false) by now inversion Hcore.
    simpl. rewrite Hc.
    change (c :: core ++ post) with ((c :: core) ++ post).
    rewrite rev_app_distr, dropWhile_all by now apply Forall_rev.
    rewrite dropWhile_stops; [apply rev_involutive|].
    intros c' s' E. rewrite Forall_forall in Hcore. apply Hcore.
    apply in_rev. rewrite E. now left.
Qed.

Lemma isEmpty_true (s : jsstring) : isEmpty s = true <-> s = [].
Proof. destruct s; simpl; split; congruence. Qed.

Lemma isEmpty_false (s : jsstring) : isEmpty s = false <-> s <> [].
Proof. destruct s; simpl; split; congruence. Qed.

Lemma trim_nil : trim [] = [].
Proof. reflexivity. Qed.

(** [!v || v.trim() === ''] says no more than [v.trim() === '']. *)
Lemma fieldMissing_trim (v : jsstring) : fieldMissing v = isEmpty (trim v).
Proof. destruct v; reflexivity. Qed.

(** ** Regular expressions: the derivative matcher decides the language *)

Lemma Matches_nil_nullable (r : regex) :
  Matches r [] <-> nullable r = true.
Proof.
  split.
  - intros H. remember (@nil char) as s eqn:E.
    induction H; simpl; try reflexivity; try discriminate.
    + apply app_eq_nil in E as [E1 E2].
      now rewrite IHMatches1, IHMatches2.
    + now rewrite IHMatches.
    + rewrite IHMatches by assumption. apply orb_true_r.
  - induction r; simpl; intros H; try discriminate.
    + constructor.
    + apply andb_true_iff in H as [H1 H2].
      change (@nil char) with (@nil char ++ []). constructor; auto.
    + apply orb_true_iff in H as [H|H]; [apply MAltL | apply MAltR]; auto.
    + constructor.
Qed.

Lemma Matches_deriv_cons (r : regex) (c : char) (s : jsstring) :
  Matches (deriv c r) s -> Matches r (c :: s).
Proof.
  revert s. induction r; simpl; intros s H.
  - inversion H.
  - inversion H.
  - destruct (b c) eqn:Hb; inversion H; subst. now constructor.
  - destruct (nullable r1) eqn:Hn.
    + inversion H; subst.
      * match goal with
        | [ M : Matches (Cat _ _) _ |- _ ] => inversion M; subst
        end.
        change (c :: s1 ++ s2) with ((c :: s1) ++ s2). constructor; auto.
      * change (c :: s) with ([] ++ c :: s). constructor; auto.
        now apply Matches_nil_nullable.
    + inversion H; subst.
      change (c :: s1 ++ s2) with ((c :: s1) ++ s2). constructor; auto.
  - inversion H; subst; [apply MAltL | apply MAltR]; auto.
  - inversion H; subst.
    change (c :: s1 ++ s2) with ((c :: s1) ++ s2). constructor; auto.
Qed.

Lemma Matches_cons_deriv (r : regex) (c : char) (s : jsstring) :
  Matches r (c :: s) -> Matches (deriv c r) s.
Proof.
  intros H. remember (c :: s) as cs eqn:E. revert c s E.
  induction H; intros c0 s0 E; simpl; try discriminate.
  - injection E as -> <-. rewrite H. constructor.
  - destruct s1 as [|c1 s1]; simpl in E.
    + subst s2. apply Matches_nil_nullable in H. rewrite H.
      apply MAltR. now apply IHMatches2.
    + injection E as -> <-.
      destruct (nullable r1); [apply MAltL|]; constructor; auto.
  - apply MAltL; auto.
  - apply MAltR; auto.
  - destruct s1 as [|c1 s1]; simpl in E.
    + now apply IHMatches2.
    + injection E as -> <-. constructor; auto.
Qed.

(** [test] decides membership in the language. *)
Lemma test_Matches (r : regex) (s : jsstring) :
  test r s = true <-> Matches r s.
Proof.
  revert r. induction s as [|c s IH]; intros r; simpl.
  - symmetry. apply Matches_nil_nullable.
  - rewrite IH. split; [apply Matches_deriv_cons | apply Matches_cons_deriv].
Qed.

(** A matched string only has code units that the classes of the
    expression accept. *)
Lemma Matches_classesWithin (P : char -> Prop) (r : regex) (s : jsstring) :
  Matches r s -> classesWithin P r -> Forall P s.
Proof.
  induction 1; simpl; intros HP; auto.
  - destruct HP. apply Forall_app; auto.
  - destruct HP; auto.
  - destruct HP; auto.
  - apply Forall_app; auto.
Qed.

Lemma Matches_star_class (p : char -> bool) (s : jsstring) :
  Forall (fun c => p c = true) s -> Matches (Star (Class p)) s.
Proof.
  induction 1 as [|c s Hc _ IH]; [constructor|].
  change (c :: s) with ([c] ++ s). constructor; [now constructor | assumption].
Qed.

(** [/^[...]+$/] accepts the non-empty strings over the class. *)
Lemma test_plus_class (p : char -> bool) (s : jsstring) :
  test (Plus (Class p)) s = negb (isEmpty s) && forallb p s.
Proof.
  destruct (negb (isEmpty s) && forallb p s) eqn:E.
  - apply andb_true_iff in E as [Hne Hall].
    apply test_Matches. destruct s as [|c s]; [discriminate|].
    simpl in Hall. apply andb_true_iff in Hall as [Hc Hs].
    change (c :: s) with ([c] ++ s). constructor; [now constructor|].
    apply Matches_star_class. rewrite forallb_forall in Hs.
    now apply Forall_forall.
  - destruct (test (Plus (Class p)) s) eqn:T; [|reflexivity].
    apply test_Matches in T.
    assert (Hall : Forall (fun c => p c = true) s).
    { apply (Matches_classesWithin (fun c => p c = true) _ _ T).
      simpl. auto. }
    assert (Hne : s <> []).
    { intros ->. apply Matches_nil_nullable in T. discriminate. }
    rewrite <- E. symmetry. apply andb_true_iff. split.
    + destruct s; [congruence | reflexivity].
    + apply forallb_forall. now apply Forall_forall.
Qed.

Lemma emailRegex_classes :
  classesWithin (fun c => isWhiteSpace c = false) emailRegex.
Proof.
  assert (X : forall c, notSpaceNorAt c = true -> isWhiteSpace c = false).
  { unfold notSpaceNorAt. intros c H.
    apply negb_true_iff, orb_false_iff in H. tauto. }
  assert (A : forall c, (at_sign =? c)%N = true -> isWhiteSpace c = false).
  { intros c H. apply N.eqb_eq in H. now subst c. }
  assert (D : forall c, (dot =? c)%N = true -> isWhiteSpace c = false).
  { intros c H. apply N.eqb_eq in H. now subst c. }
  simpl. repeat split; assumption.
Qed.

(** An address that [isValidEmail] accepts has no white space in it. *)
Lemma isValidEmail_no_whitespace (e : jsstring) :
  isValidEmail e = true -> Forall (fun c => isWhiteSpace c = false) e.
Proof.
  intros H. apply test_Matches in H.
  exact (Matches_classesWithin _ _ _ H emailRegex_classes).
Qed.

Lemma isValidEmail_nonempty (e : jsstring) :
  isValidEmail e = true -> e <> [].
Proof. intros H ->. discriminate. Qed.

(** ** The validator *)

Lemma render_injective (a b : ValidationResult) : render a = render b -> a = b.
Proof.
  destruct a as [|[]], b as [|[]]; intros H; try reflexivity;
    vm_compute in H; discriminate.
Qed.

Lemma honeypotFilled_false (env : Env) :
  honeypotFilled env = false <->
  (forall v, honeypot env = Some v -> trim v = []).
Proof.
  unfold honeypotFilled. destruct (honeypot env) as [h|]; split.
  - intros H v [= <-]. apply isEmpty_true. now apply negb_false_iff.
  - intros H. apply negb_false_iff, isEmpty_true. now apply H.
  - intros _ v [=].
  - reflexivity.
Qed.

Lemma honeypotFilled_true (env : Env) :
  honeypotFilled env = true <->
  (exists v, honeypot env = Some v /\ trim v <> []).
Proof.
  unfold honeypotFilled. destruct (honeypot env) as [h|]; split.
  - intros H. exists h. split; [reflexivity|].
    now apply isEmpty_false, negb_true_iff.
  - intros (v & [= <-] & H). now apply negb_true_iff, isEmpty_false.
  - discriminate.
  - intros (v & [=] & _).
Qed.

(** The required-field loop finds nothing exactly when each of the six
    fields has something left after trimming. *)
Lemma required_present (data : FormData) :
  someFieldMissing data = false <->
  (forall field, In field requiredFields -> trim (field data) <> []).
Proof.
  unfold someFieldMissing. split.
  - intros H field Hin. apply isEmpty_false. rewrite <- fieldMissing_trim.
    destruct (fieldMissing (field data)) eqn:E; [|reflexivity].
    rewrite <- H. symmetry. apply existsb_exists. now exists field.
  - intros H. destruct (existsb _ requiredFields) eqn:E; [|reflexivity].
    apply existsb_exists in E as (field & Hin & Hm).
    rewrite fieldMissing_trim in Hm. apply isEmpty_true in Hm.
    now destruct (H field Hin).
Qed.

(** [validateFormData] as a decision list over the five rules. *)
Lemma validateFormData_spec (env : Env) (data : FormData) :
  validateFormData env data = render (spec_validate env data).
Proof.
  unfold validateFormData, spec_validate, ruleOrder. simpl.
  destruct (honeypotFilled env); [reflexivity|].
  destruct (someFieldMissing data); [reflexivity|].
  destruct (isValidEmail (email data)); [|reflexivity].
  destruct (isValidPhone (phone data)); [|reflexivity].
  destruct (dateInPast env data); reflexivity.
Qed.

(** C1. [validateFormData] tries the rules in the order honeypot, required
    fields, email, phone, date, and answers with the reason of the first
    one that is violated, or with success when none is; whenever the
    honeypot holds something other than white space the answer is the spam
    reason, whatever the booking says. *)
Theorem validate_rule_order (env : Env) (data : FormData) :
  ruleOrder = [Spam; MissingField; BadEmail; BadPhone; PastDate]
  /\ validateFormData env data
     = render (match find (violates env data) ruleOrder with
               | Some r => Invalid r
               | None => Valid
               end)
  /\ (forall v, honeypot env = Some v -> trim v <> [] ->
      validateFormData env data = render (Invalid Spam)).
Proof.
  split; [reflexivity|]. split; [apply validateFormData_spec|].
  intros v Hv Hne. unfold validateFormData.
  replace (honeypotFilled env) with true; [reflexivity|].
  symmetry. apply honeypotFilled_true. now exists v.
Qed.

Lemma validate_rule_order_witness :
  validateFormData Examples.robot Examples.booking = render (Invalid Spam)
  /\ validateFormData Examples.kathmandu Examples.booking = render Valid.
Proof.
  split.
  - apply (proj2 (proj2 (validate_rule_order Examples.robot Examples.booking))
                 (lit "ACME Ltd") eq_refl).
    vm_compute. discriminate.
  - rewrite (proj1 (proj2 (validate_rule_order Examples.kathmandu
                                               Examples.booking))).
    vm_compute. reflexivity.
Defined.

(** C5. With the honeypot empty after trimming, a booking in which one of
    the six required fields is empty after trimming is answered with the
    missing-field reason, whatever else it holds. *)
Theorem missing_required_field
    (env : Env) (data : FormData) (field : FormData -> jsstring) :
  (forall v, honeypot env = Some v -> trim v = []) ->
  In field requiredFields ->
  trim (field data) = [] ->
  validateFormData env data = render (Invalid MissingField).
Proof.
  intros Hh Hin Hempty. unfold validateFormData.
  replace (honeypotFilled env) with false
    by (symmetry; now apply honeypotFilled_false).
  replace (someFieldMissing data) with true; [reflexivity|].
  symmetry. apply existsb_exists. exists field. split; [assumption|].
  rewrite fieldMissing_trim. now apply isEmpty_true.
Qed.

Lemma missing_required_field_witness :
  validateFormData Examples.kathmandu
    (Examples.withFirstName (lit "   ")
       (Examples.withEmail (lit "not-an-email") Examples.booking))
  = render (Invalid MissingField).
Proof.
  apply (missing_required_field Examples.kathmandu _ firstName).
  - intros v [= <-]. reflexivity.
  - simpl. auto.
  - vm_compute. reflexivity.
Defined.

(** C10. The required-field check trims, the email check does not: an
    address that [isValidEmail] accepts, once white space is put before or
    after it, passes the required-field check and fails the email check,
    although its trimming is the accepted address. *)
Theorem padded_email_rejected
    (env : Env) (data : FormData) (pre core post : jsstring) :
  (forall v, honeypot env = Some v -> trim v = []) ->
  (forall field, In field [firstName; lastName; phone; date; serviceType] ->
                 trim (field data) <> []) ->
  email data = pre ++ core ++ post ->
  Forall (fun c => isWhiteSpace c = true) pre ->
  Forall (fun c => isWhiteSpace c = true) post ->
  pre ++ post <> [] ->
  isValidEmail core = true ->
  validateFormData env data = render (Invalid BadEmail)
  /\ fieldMissing (email data) = false
  /\ isValidEmail (trim (email data)) = true.
Proof.
  intros Hh Hreq He Hpre Hpost Hpad Hcore.
  assert (Hclean := isValidEmail_no_whitespace _ Hcore).
  assert (Htrim : trim (email data) = core)
    by (rewrite He; now apply trim_padded).
  assert (Hbad : isValidEmail (email data) = false).
  { destruct (isValidEmail (email data)) eqn:E; [|reflexivity].
    apply isValidEmail_no_whitespace in E. rewrite He in E.
    apply Forall_app in E as [Epre E]. apply Forall_app in E as [_ Epost].
    destruct pre as [|c pre].
    - destruct post as [|c post]; [now destruct Hpad|].
      inversion Hpost; inversion Epost; subst. congruence.
    - inversion Hpre; inversion Epre; subst. congruence. }
  repeat split.
  - unfold validateFormData.
    replace (honeypotFilled env) with false
      by (symmetry; now apply honeypotFilled_false).
    replace (someFieldMissing data) with false.
    + now rewrite Hbad.
    + symmetry. apply required_present. intros field Hin.
      simpl in Hin. destruct Hin as [<-|[<-|[<-|Hin]]].
      * apply Hreq. simpl. auto.
      * apply Hreq. simpl. auto.
      * rewrite Htrim. now apply isValidEmail_nonempty.
      * apply Hreq. simpl. tauto.
  - rewrite fieldMissing_trim, Htrim. apply isEmpty_false.
    now apply isValidEmail_nonempty.
  - now rewrite Htrim.
Qed.

Lemma padded_email_rejected_witness :
  validateFormData Examples.kathmandu
    (Examples.withEmail (lit " a@b.c") Examples.booking)
  = render (Invalid BadEmail)
  /\ fieldMissing (lit " a@b.c") = false
  /\ isValidEmail (trim (lit " a@b.c")) = true.
Proof.
  apply (padded_email_rejected Examples.kathmandu
           (Examples.withEmail (lit " a@b.c") Examples.booking)
           (lit " ") (lit "a@b.c") []).
  - intros v [= <-]. reflexivity.
  - intros field Hin. simpl in Hin.
    destruct Hin as [<-|[<-|[<-|[<-|[<-|[]]]]]]; vm_compute; discriminate.
  - reflexivity.
  - repeat constructor.
  - constructor.
  - discriminate.
  - reflexivity.
Defined.

(** ** The phone rule in the three scripts *)

Lemma trim_nonempty_nonempty (s : jsstring) : trim s <> [] -> s <> [].
Proof. intros H ->. now apply H. Qed.

Lemma isValidPhone_digits (p : jsstring) :
  isValidPhone p = false <-> List.length (stripNonDigits p) < 10.
Proof. unfold isValidPhone. rewrite Nat.leb_gt. reflexivity. Qed.

Lemma Enhanced_someRequiredEmpty_false (data : FormData) :
  Enhanced.someRequiredEmpty data = false <->
  (forall field, In field requiredFields -> field data <> []).
Proof.
  unfold Enhanced.someRequiredEmpty, Enhanced.values, requiredFields. simpl.
  rewrite !orb_false_r, !orb_false_iff, !isEmpty_false. split.
  - intros H field [<-|[<-|[<-|[<-|[<-|[<-|[]]]]]]]; tauto.
  - intros H. repeat split; apply H; simpl; tauto.
Qed.

(** The legacy handler on a booking whose six fields are present and whose
    address is accepted: only the character class of the phone decides. *)
Lemma Legacy_onSubmit_phone (data : FormData) :
  someFieldMissing data = false ->
  isValidEmail (email data) = true ->
  Legacy.onSubmit (Legacy.formOf data)
  = forallb Legacy.phoneChar (phone data).
Proof.
  intros Hreq Hemail.
  assert (Hall := proj1 (required_present data) Hreq).
  assert (F : forall field, In field requiredFields ->
                            isEmpty (trim (field data)) = false).
  { intros field Hin. now apply isEmpty_false, Hall. }
  unfold Legacy.onSubmit, Legacy.formOf, requiredFields in *.
  cbn [fold_left List.map Legacy.requiredValues Legacy.emailInput
       Legacy.phoneInput].
  rewrite (F firstName), (F lastName), (F email), (F phone), (F date),
    (F serviceType) by (simpl; tauto).
  unfold isValidEmail in Hemail. rewrite Hemail, andb_false_r.
  unfold Legacy.phonePattern. rewrite test_plus_class.
  assert (Hp : isEmpty (phone data) = false).
  { apply isEmpty_false, trim_nonempty_nonempty, Hall. simpl. tauto. }
  rewrite Hp. simpl. now destruct (forallb Legacy.phoneChar (phone data)).
Qed.

(** C4 (as the code has it).  On a booking that passes the honeypot, the
    required-field and the email rule, the v2.0.0 validator and the
    enhanced handler give the bad-phone answer exactly when the phone has
    fewer than ten digits; the legacy handler does not count digits and
    accepts exactly the phones written with digits, [+], [-], brackets and
    white space. *)
Theorem phone_rule_by_variant
    (env : Env) (company : jsstring) (data : FormData) :
  (forall v, honeypot env = Some v -> trim v = []) ->
  trim company = [] ->
  (forall field, In field requiredFields -> trim (field data) <> []) ->
  isValidEmail (email data) = true ->
  (validateFormData env data = render (Invalid BadPhone)
   <-> List.length (stripNonDigits (phone data)) < 10)
  /\ (Enhanced.onSubmit company data
      = Enhanced.Rejected (lit "Invalid phone.") true
      <-> List.length (stripNonDigits (phone data)) < 10)
  /\ Legacy.onSubmit (Legacy.formOf data)
     = forallb Legacy.phoneChar (phone data).
Proof.
  intros Hh Hc Hreq Hemail.
  assert (Hreq' := proj2 (required_present data) Hreq).
  split; [|split].
  - unfold validateFormData.
    replace (honeypotFilled env) with false
      by (symmetry; now apply honeypotFilled_false).
    rewrite Hreq', Hemail. simpl.
    rewrite <- isValidPhone_digits.
    destruct (isValidPhone (phone data)); simpl.
    + destruct (dateInPast env data); split; intros H;
        try discriminate; apply render_injective in H; discriminate.
    + tauto.
  - unfold Enhanced.onSubmit. rewrite Hc. simpl isEmpty. simpl negb.
    cbv iota.
    replace (Enhanced.someRequiredEmpty (Enhanced.collect data)) with false.
    + unfold Enhanced.collect at 1. cbn [email].
      rewrite (trim_no_whitespace (email data))
        by now apply isValidEmail_no_whitespace.
      unfold isValidEmail in Hemail. rewrite Hemail. simpl negb. cbv iota.
      unfold Enhanced.collect. cbn [phone]. rewrite stripNonDigits_trim.
      destruct (Nat.ltb_spec (List.length (stripNonDigits (phone data))) 10);
        split; intros H'; try reflexivity; try assumption; try discriminate.
      lia.
    + symmetry. apply Enhanced_someRequiredEmpty_false.
      intros field Hin. unfold requiredFields in Hin. simpl in Hin.
      destruct Hin as [<-|[<-|[<-|[<-|[<-|[<-|[]]]]]]]; simpl;
        try (apply Hreq; simpl; tauto);
        apply trim_nonempty_nonempty, Hreq; simpl; tauto.
  - now apply Legacy_onSubmit_phone.
Qed.

Lemma phone_rule_by_variant_witness :
  validateFormData Examples.kathmandu
    (Examples.withPhone (lit "12345") Examples.booking)
  = render (Invalid BadPhone)
  /\ Enhanced.onSubmit [] (Examples.withPhone (lit "12345") Examples.booking)
     = Enhanced.Rejected (lit "Invalid phone.") true
  /\ Legacy.onSubmit
       (Legacy.formOf (Examples.withPhone (lit "12345") Examples.booking))
     = true.
Proof.
  destruct (phone_rule_by_variant Examples.kathmandu []
              (Examples.withPhone (lit "12345") Examples.booking))
    as (V & E & L).
  - intros v [= <-]. reflexivity.
  - reflexivity.
  - intros field Hin. unfold requiredFields in Hin. simpl in Hin.
    destruct Hin as [<-|[<-|[<-|[<-|[<-|[<-|[]]]]]]]; vm_compute; discriminate.
  - reflexivity.
  - split; [|split].
    + apply V. vm_compute. lia.
    + apply E. vm_compute. lia.
    + rewrite L. reflexivity.
Defined.

(** C4 (as stated) fails for the legacy handler: a phone of five digits on
    a booking that is otherwise in order is accepted. *)
Lemma legacy_accepts_short_phone :
  ~ (forall data : FormData,
        List.length (stripNonDigits (phone data)) < 10 ->
        Legacy.onSubmit (Legacy.formOf data) = false).
Proof.
  intros H.
  specialize (H (Examples.withPhone (lit "12345") Examples.booking)).
  vm_compute in H. discriminate H. lia.
Qed.

(** ** The date rule *)




(** A date that does not parse is never in the past. *)
Lemma date_rule_unparsed (env : Env) (data : FormData) :
  JSDate.parse (dateParseFallback env) (date data) = None ->
  dateInPast env data = false.
Proof. intros H. unfold dateInPast. now rewrite H. Qed.

(** The answer of the validator once the first four rules are passed. *)
Lemma validate_after_four_rules (env : Env) (data : FormData) :
  honeypotFilled env = false ->
  someFieldMissing data = false ->
  isValidEmail (email data) = true ->
  isValidPhone (phone data) = true ->
  validateFormData env data
  = render (if dateInPast env data then Invalid PastDate else Valid).
Proof.
  intros H1 H2 H3 H4. unfold validateFormData.
  rewrite H1, H2, H3, H4. simpl. now destruct (dateInPast env data).
Qed.



(** C2 (where the code departs from it).  In a zone five hours west of UTC,
    at local noon of 2024-12-15, a booking in order whose date is
    2024-12-15, the local day, is answered with the past-date reason:
    the date is read as midnight UTC and compared with midnight local
    time. *)
Theorem today_rejected_west_of_utc :
  JSDate.parse (dateParseFallback Examples.newYork) (date Examples.booking)
  = Some (JSDate.localDay (tzOffsetMinutes Examples.newYork)
                          (now Examples.newYork) * JSDate.msPerDay)%Z
  /\ forallb (fun r => negb (violates Examples.newYork Examples.booking r))
             [Spam; MissingField; BadEmail; BadPhone] = true
  /\ validateFormData Examples.newYork Examples.booking
     = render (Invalid PastDate).
Proof. vm_compute. auto. Qed.



(** A date that is no date is let through. *)
Lemma unparsed_date_accepted :
  validateFormData Examples.kathmandu
    (Examples.withDate (lit "soon") Examples.booking)
  = render Valid.
Proof. vm_compute. reflexivity. Qed.

(** ** The submission sequencer *)

Module SequencerFacts.

Import Sequencer.

Lemma ResetForm_only_after_send (env : Env) (p : Page) (ev : Event) :
  In ResetForm (react env p ev) -> ev = Fires SendTimer.
Proof.
  destruct ev as [| edited | []]; simpl; unfold handleFormSubmit,
    clearErrorStatus.
  - destruct (negb _); simpl; intuition discriminate.
  - intuition discriminate.
  - reflexivity.
  - intuition discriminate.
  - destruct (statusClass p); simpl; intuition discriminate.
Qed.

Lemma SendTimer_only_after_valid_submit
    (env : Env) (p : Page) (ev : Event) (ms : Z) :
  In (SetTimeout SendTimer ms) (react env p ev) ->
  ev = Submit
  /\ Validation.isValid (validateFormData env (fields p)) = true
  /\ ms = formSubmitDelay.
Proof.
  destruct ev as [| edited | []]; simpl; unfold handleFormSubmit,
    clearErrorStatus.
  - destruct (Validation.isValid _); simpl.
    + intros [H|[H|[]]]; [discriminate|]. injection H as <-. auto.
    + intros [H|[]]. discriminate.
  - intuition discriminate.
  - intuition discriminate.
  - intuition discriminate.
  - destruct (statusClass p); simpl; intuition discriminate.
Qed.

(** Actions other than [ResetForm] leave the controls alone. *)
Lemma performAll_fields (actions : list Action) (p : Page) :
  ~ In ResetForm actions -> fields (performAll p actions) = fields p.
Proof.
  unfold performAll. revert p.
  induction actions as [|a actions IH]; intros p Hn; simpl; [reflexivity|].
  rewrite IH by (intros H; apply Hn; now right).
  destruct a; simpl; try reflexivity. destruct Hn. now left.
Qed.

End SequencerFacts.

(** C6. A submit that the validator refuses shows the validator's message
    with the error class in that very step, sets no timer and leaves the
    controls and the pending timers (hence the state) as they were; the
    form is reset by no event but the running out of the send timer, which
    only a submit that the validator accepts sets; and when it runs out the
    controls go back to their defaults. *)
Theorem form_cleared_only_after_send (env : Env) (p : Sequencer.Page) :
  (Validation.isValid (validateFormData env (Sequencer.fields p)) = false ->
   let p' := Sequencer.step env p Sequencer.Submit in
   Sequencer.statusText p'
   = Validation.message (validateFormData env (Sequencer.fields p))
   /\ Sequencer.statusClass p' = Sequencer.ErrorClass
   /\ Sequencer.fields p' = Sequencer.fields p
   /\ Sequencer.pending p' = Sequencer.pending p
   /\ Sequencer.phase p' = Sequencer.phase p)
  /\ (forall ev, In Sequencer.ResetForm (Sequencer.react env p ev) ->
                 ev = Sequencer.Fires Sequencer.SendTimer)
  /\ (forall ev ms,
        In (Sequencer.SetTimeout Sequencer.SendTimer ms)
           (Sequencer.react env p ev) ->
        ev = Sequencer.Submit
        /\ Validation.isValid (validateFormData env (Sequencer.fields p))
           = true)
  /\ (forall ev, ev <> Sequencer.Fires Sequencer.SendTimer ->
                 Sequencer.fields (Sequencer.step env p ev)
                 = Sequencer.fields (Sequencer.before p ev))
  /\ Sequencer.fields
       (Sequencer.step env p (Sequencer.Fires Sequencer.SendTimer))
     = Sequencer.defaults p.
Proof.
  split; [|split; [|split; [|split]]].
  - intros Hinv. unfold Sequencer.step, Sequencer.react,
      Sequencer.handleFormSubmit, Sequencer.phase, Sequencer.isPending.
    rewrite Hinv. simpl. auto.
  - apply SequencerFacts.ResetForm_only_after_send.
  - intros ev ms H.
    apply SequencerFacts.SendTimer_only_after_valid_submit in H. tauto.
  - intros ev Hev. unfold Sequencer.step.
    apply SequencerFacts.performAll_fields. intros H.
    now apply SequencerFacts.ResetForm_only_after_send in H.
  - reflexivity.
Qed.

Lemma form_cleared_only_after_send_witness :
  let p := Examples.idlePage (Examples.withPhone (lit "12345") Examples.booking) in
  let p' := Sequencer.step Examples.kathmandu p Sequencer.Submit in
  Sequencer.statusText p' = msgPhone
  /\ Sequencer.statusClass p' = Sequencer.ErrorClass
  /\ Sequencer.fields p' = Sequencer.fields p
  /\ Sequencer.pending p' = []
  /\ Sequencer.phase p' = Sequencer.Idle.
Proof.
  exact (proj1 (form_cleared_only_after_send Examples.kathmandu
                  (Examples.idlePage
                     (Examples.withPhone (lit "12345") Examples.booking)))
               eq_refl).
Defined.

(** *** Runs of the sequencer *)

Module SequencerRuns.

Import Sequencer.

Lemma pendingSends_removeFirst_other (t : Timer) (l : list (Timer * Z)) :
  t <> SendTimer ->
  List.length (filter isSend (removeFirst t l))
  = List.length (filter isSend l).
Proof.
  intros Ht. induction l as [|[t' ms] l IH]; simpl; [reflexivity|].
  destruct t, t'; simpl; try congruence; try reflexivity; now rewrite IH.
Qed.

Lemma pendingSends_removeFirst_send (l : list (Timer * Z)) :
  existsb (fun e => Timer_eqb SendTimer (fst e)) l = true ->
  S (List.length (filter isSend (removeFirst SendTimer l)))
  = List.length (filter isSend l).
Proof.
  induction l as [|[t' ms] l IH]; simpl; [discriminate|].
  destruct t'; simpl; intros H; try reflexivity; now apply IH.
Qed.

Lemma pendingSends_app (l l' : list (Timer * Z)) :
  List.length (filter isSend (l ++ l'))
  = List.length (filter isSend l)
    + List.length (filter isSend l').
Proof. now rewrite filter_app, length_app. Qed.

Lemma react_resets (env : Env) (p : Page) (ev : Event) :
  List.length (filter isReset (react env p ev))
  = match ev with Fires SendTimer => 1 | _ => 0 end.
Proof.
  destruct ev as [| edited | []]; simpl; try reflexivity.
  - unfold handleFormSubmit. now destruct (negb _).
  - unfold clearErrorStatus. now destruct (statusClass p).
Qed.

Lemma pending_step (env : Env) (p : Page) (ev : Event) :
  pending (step env p ev)
  = match ev with
    | Submit =>
        if Validation.isValid (validateFormData env (fields p))
        then pending p ++ [(SendTimer, formSubmitDelay)]
        else pending p
    | Input _ =>
        removeFirst DebounceTimer (pending p) ++ [(DebounceTimer, 300%Z)]
    | Fires SendTimer =>
        removeFirst SendTimer (pending p) ++ [(StatusTimer, 5000%Z)]
    | Fires t => removeFirst t (pending p)
    end.
Proof.
  destruct ev as [| edited | []]; unfold step; simpl; try reflexivity.
  - unfold handleFormSubmit. now destruct (Validation.isValid _).
  - unfold clearErrorStatus. now destruct (statusClass p).
Qed.

(** Each event keeps the books balanced. *)
Lemma stepRun_balance (r r' : Run) (e : Env * Event) :
  stepRun r e = Some r' ->
  resets r + pendingSends (page r) = accepted r ->
  resets r' + pendingSends (page r') = accepted r'.
Proof.
  destruct e as [env ev]. unfold stepRun. cbn [fst snd].
  destruct (enabled (page r) ev) eqn:En; [|discriminate].
  intros [= <-] Hbal. cbn [page accepted resets].
  unfold pendingSends in *. rewrite react_resets, pending_step.
  destruct ev as [| edited | []]; cbn [acceptedBy enabled] in En |- *.
  - destruct (Validation.isValid _).
    + rewrite pendingSends_app. simpl. lia.
    + lia.
  - rewrite pendingSends_app. simpl.
    rewrite pendingSends_removeFirst_other by discriminate. lia.
  - rewrite pendingSends_app. simpl.
    apply pendingSends_removeFirst_send in En. lia.
  - rewrite pendingSends_removeFirst_other by discriminate. lia.
  - rewrite pendingSends_removeFirst_other by discriminate. lia.
Qed.

(** X17. In every run that starts with no send under way, the resets
    performed and the sends still under way add up to the submits
    accepted: the form is never reset more often than a submit was
    accepted and its send completed, and every accepted submit, also one
    made while another send is under way, leads to a reset of its own. *)
Theorem resets_balance (trace : list (Env * Event)) (p0 : Page) (r : Run) :
  pendingSends p0 = 0 ->
  runFrom (mkRun p0 0 0) trace = Some r ->
  resets r + pendingSends (page r) = accepted r.
Proof.
  intros H0.
  assert (G : forall r0, resets r0 + pendingSends (page r0) = accepted r0 ->
                         runFrom r0 trace = Some r ->
                         resets r + pendingSends (page r) = accepted r).
  { induction trace as [|e trace IH]; simpl; intros r0 Hbal Hrun.
    - now injection Hrun as <-.
    - destruct (stepRun r0 e) as [r1|] eqn:E; [|discriminate].
      apply (IH r1); [|assumption].
      now apply (stepRun_balance r0 r1 e). }
  apply G. simpl. lia.
Qed.

Lemma resets_balance_witness :
  exists r,
    runFrom (mkRun (Examples.idlePage Examples.booking) 0 0)
            [(Examples.kathmandu, Submit);
             (Examples.kathmandu, Fires SendTimer)] = Some r
    /\ resets r = 1 /\ accepted r = 1
    /\ fields (page r) = Examples.blank.
Proof.
  eexists. split; [vm_compute; reflexivity|].
  pose proof (resets_balance
                [(Examples.kathmandu, Submit);
                 (Examples.kathmandu, Fires SendTimer)]
                (Examples.idlePage Examples.booking) _ eq_refl eq_refl) as B.
  vm_compute in B |- *. auto.
Defined.

End SequencerRuns.

(** ** The carousel *)

Module CarouselFacts.

Import Carousel.

(** With one item per page the page count is the item count; with three
    it is the integer ceiling of a third of it. *)
Lemma computePageCount_ceiling (itemCount itemsPerPage : Z) :
  itemsPerPage = 1%Z \/ itemsPerPage = 3%Z ->
  computePageCount itemCount itemsPerPage
  = ((itemCount + itemsPerPage - 1) / itemsPerPage)%Z.
Proof.
  unfold computePageCount, Qceiling, Qfloor.
  intros [-> | ->]; simpl.
  - rewrite !Z.mul_1_r, Z.div_1_r, Z.add_simpl_r, Z.div_1_r. lia.
  - rewrite !Z.mul_1_r.
    pose proof (Z.div_mod (- itemCount) 3 ltac:(lia)) as E1.
    pose proof (Z.mod_pos_bound (- itemCount) 3 ltac:(lia)) as B1.
    pose proof (Z.div_mod (itemCount + 3 - 1) 3 ltac:(lia)) as E2.
    pose proof (Z.mod_pos_bound (itemCount + 3 - 1) 3 ltac:(lia)) as B2.
    lia.
Qed.

Lemma findActiveIndex_from (i n a acc : nat) :
  fold_left (fun activeIndex (dot : nat * bool) =>
               if snd dot then fst dot else activeIndex)
            (combine (seq a n) (List.map (fun j => j =? i) (seq a n))) acc
  = if (a <=? i) && (i <? a + n) then i else acc.
Proof.
  revert a acc. induction n as [|n IH]; intros a acc; simpl.
  - destruct (Nat.leb_spec a i), (Nat.ltb_spec i (a + 0)); simpl;
      try reflexivity; lia.
  - rewrite IH.
    destruct (Nat.eqb_spec a i) as [->|Hne].
    + destruct (Nat.leb_spec (S i) i), (Nat.leb_spec i i),
        (Nat.ltb_spec i (S i + n)), (Nat.ltb_spec i (i + S n)); simpl;
        try reflexivity; lia.
    + destruct (Nat.leb_spec (S a) i), (Nat.leb_spec a i),
        (Nat.ltb_spec i (S a + n)), (Nat.ltb_spec i (a + S n)); simpl;
        try reflexivity; lia.
Qed.

Lemma length_dotsAt (pageCount pageIndex : nat) :
  List.length (dotsAt pageCount pageIndex) = pageCount.
Proof. unfold dotsAt. now rewrite length_map, length_seq. Qed.

(** The page a carousel shows is the one [autoScrollCarousel] reads. *)
Lemma findActiveIndex_dotsAt (pageCount pageIndex : nat) :
  pageIndex < pageCount ->
  findActiveIndex (dotsAt pageCount pageIndex) = pageIndex.
Proof.
  intros H. unfold findActiveIndex. rewrite length_dotsAt. unfold dotsAt.
  rewrite findActiveIndex_from.
  destruct (Nat.ltb_spec pageIndex (0 + pageCount)); simpl;
    [reflexivity | lia].
Qed.

Lemma iter_advance (pageCount k pageIndex : nat) :
  pageIndex < pageCount ->
  Nat.iter k (advance pageCount) pageIndex = (pageIndex + k) mod pageCount.
Proof.
  intros H. induction k as [|k IH]; simpl.
  - rewrite Nat.add_0_r. symmetry. now apply Nat.mod_small.
  - rewrite IH. unfold advance.
    rewrite Nat.Div0.add_mod_idemp_l. f_equal. lia.
Qed.

Lemma autoScrollCarousel_nonempty (innerWidth : Z) (c : State) :
  dots c <> [] ->
  autoScrollCarousel innerWidth c
  = updateActiveDot
      (advance (List.length (dots c)) (findActiveIndex (dots c)))
      (moveCarousel innerWidth
         (advance (List.length (dots c)) (findActiveIndex (dots c))) c).
Proof.
  unfold autoScrollCarousel. intros H.
  destruct (dots c); [now destruct H | reflexivity].
Qed.

(** One tick of the auto-scroll on a carousel that shows a page. *)
Lemma autoScrollCarousel_dots
    (innerWidth : Z) (c : State) (pageCount pageIndex : nat) :
  dots c = dotsAt pageCount pageIndex ->
  pageIndex < pageCount ->
  dots (autoScrollCarousel innerWidth c)
  = dotsAt pageCount (advance pageCount pageIndex).
Proof.
  intros Hd Hlt. rewrite autoScrollCarousel_nonempty.
  - unfold updateActiveDot, moveCarousel. cbn [dots].
    rewrite Hd, length_dotsAt, findActiveIndex_dotsAt by assumption.
    reflexivity.
  - rewrite Hd. destruct pageCount; [lia | discriminate].
Qed.

Lemma iter_autoScrollCarousel
    (innerWidth : Z) (c : State) (pageCount pageIndex k : nat) :
  dots c = dotsAt pageCount pageIndex ->
  pageIndex < pageCount ->
  dots (Nat.iter k (autoScrollCarousel innerWidth) c)
  = dotsAt pageCount (Nat.iter k (advance pageCount) pageIndex).
Proof.
  intros Hd Hlt. induction k as [|k IH]; simpl; [assumption|].
  apply autoScrollCarousel_dots; [assumption|].
  rewrite iter_advance by assumption. apply Nat.mod_upper_bound. lia.
Qed.

End CarouselFacts.

(** C7. On a carousel of at least one page that shows page [pageIndex],
    a tick of the auto-scroll moves to page [(pageIndex + 1) mod
    pageCount]: from the last page to page 0, and after [pageCount] ticks
    back to where it started. *)
Theorem advance_wraps_around
    (innerWidth : Z) (c : Carousel.State) (pageCount pageIndex : nat) :
  1 <= pageCount ->
  pageIndex < pageCount ->
  Carousel.dots c = Carousel.dotsAt pageCount pageIndex ->
  Carousel.advance pageCount pageIndex = (pageIndex + 1) mod pageCount
  /\ Carousel.dots (Carousel.autoScrollCarousel innerWidth c)
     = Carousel.dotsAt pageCount ((pageIndex + 1) mod pageCount)
  /\ Carousel.advance pageCount (pageCount - 1) = 0
  /\ Nat.iter pageCount (Carousel.advance pageCount) pageIndex = pageIndex
  /\ Carousel.dots
       (Nat.iter pageCount (Carousel.autoScrollCarousel innerWidth) c)
     = Carousel.dots c.
Proof.
  intros Hpos Hlt Hd.
  assert (Hiter : Nat.iter pageCount (Carousel.advance pageCount) pageIndex
                  = pageIndex).
  { rewrite CarouselFacts.iter_advance by assumption.
    rewrite <- (Nat.mul_1_l pageCount) at 1.
    rewrite Nat.Div0.mod_add. now apply Nat.mod_small. }
  repeat split.
  - now apply CarouselFacts.autoScrollCarousel_dots.
  - unfold Carousel.advance.
    replace (pageCount - 1 + 1) with pageCount by lia.
    apply Nat.Div0.mod_same.
  - assumption.
  - rewrite (CarouselFacts.iter_autoScrollCarousel innerWidth c pageCount
               pageIndex pageCount Hd Hlt).
    now rewrite Hiter, Hd.
Qed.

Lemma advance_wraps_around_witness :
  Carousel.advance 3 2 = 0
  /\ Carousel.dots
       (Carousel.autoScrollCarousel 1024
          (Carousel.mkState [false; false; true] 0%Q))
     = [true; false; false]
  /\ Nat.iter 3 (Carousel.advance 3) 2 = 2.
Proof.
  destruct (advance_wraps_around 1024
              (Carousel.mkState [false; false; true] 0%Q) 3 2)
    as (A & B & _ & D & _); [lia | lia | reflexivity |].
  split; [exact A | split; [exact B | exact D]].
Defined.

(** *** Doubles *)

Lemma SFopp_binary_round_aux (prec emax : Z) (s : bool) (m e : Z) l :
  SFopp (binary_round_aux prec emax s m e l)
  = binary_round_aux prec emax (negb s) m e l.
Proof.
  unfold binary_round_aux.
  destruct (shr_fexp prec emax m e l) as [mrs e'].
  destruct (shr_fexp prec emax _ e' loc_Exact) as [mrs' e''].
  destruct (shr_m mrs'); try reflexivity.
  destruct (e'' <=? emax - prec)%Z; reflexivity.
Qed.

Lemma SFopp_SFmul (prec emax : Z) (x y : spec_float) :
  SFopp (SFmul prec emax x y) = SFmul prec emax (SFopp x) y.
Proof.
  destruct x as [sx|sx| |sx mx ex], y as [sy|sy| |sy my ey]; simpl;
    rewrite ?SFopp_binary_round_aux; try reflexivity;
    now destruct sx, sy.
Qed.

(** Rounding to nearest is symmetric: the sign moves through a product of
    doubles. *)
Lemma double_opp_mul (x y : float) : (- (x * y) = (- x) * y)%float.
Proof.
  apply Prim2SF_inj. rewrite opp_spec, !mul_spec, opp_spec.
  apply SFopp_SFmul.
Qed.

(** For up to 4096 items, and one or three items a page, the page count
    computed over doubles is the exact one. *)
Lemma double_page_count_exact (itemCount : nat) (itemsPerPage : Z) :
  itemCount <= 4096 ->
  itemsPerPage = 1%Z \/ itemsPerPage = 3%Z ->
  Double.computePageCount (Z.of_nat itemCount) itemsPerPage
  = Some (Carousel.computePageCount (Z.of_nat itemCount) itemsPerPage).
Proof.
  intros Hn Hp.
  assert (A : forallb
                (fun n =>
                   forallb
                     (fun p =>
                        match Double.computePageCount (Z.of_nat n) p with
                        | Some c =>
                            (c =? Carousel.computePageCount (Z.of_nat n) p)%Z
                        | None => false
                        end) [1%Z; 3%Z])
                (seq 0 4097) = true) by (vm_compute; reflexivity).
  rewrite forallb_forall in A.
  specialize (A itemCount ltac:(apply in_seq; lia)).
  rewrite forallb_forall in A.
  specialize (A itemsPerPage ltac:(destruct Hp as [-> | ->]; simpl; tauto)).
  destruct (Double.computePageCount (Z.of_nat itemCount) itemsPerPage);
    [|discriminate].
  apply Z.eqb_eq in A. now subst.
Qed.

(** The dots of a category are as many as its pages, the first one
    active. *)
Lemma initCarouselDots_dots (itemCount innerWidth : Z) (c : Carousel.State) :
  Carousel.dots (Carousel.initCarouselDots itemCount innerWidth c)
  = Carousel.dotsAt
      (Z.to_nat (Carousel.computePageCount
                   itemCount (Carousel.itemsPerPage innerWidth))) 0.
Proof. reflexivity. Qed.

(** A category without items gets no dot, and the auto-scroll leaves such
    a carousel alone. *)
Lemma no_items_no_dots (innerWidth : Z) (c : Carousel.State) :
  Carousel.dots (Carousel.initCarouselDots 0 innerWidth c) = []
  /\ Carousel.autoScrollCarousel innerWidth
       (Carousel.initCarouselDots 0 innerWidth c)
     = Carousel.initCarouselDots 0 innerWidth c.
Proof.
  unfold Carousel.autoScrollCarousel, Carousel.initCarouselDots,
    Carousel.itemsPerPage.
  destruct (768 <=? innerWidth)%Z; split; reflexivity.
Qed.

(** C3 (as stated) fails without items: the script computes no page at
    all, where the specification asks for one. *)
Lemma page_count_has_no_minimum :
  ~ (forall itemCount itemsPerPage : Z,
        (0 <= itemCount)%Z ->
        itemsPerPage = 1%Z \/ itemsPerPage = 3%Z ->
        Carousel.computePageCount itemCount itemsPerPage
        = Carousel.spec_pageCount itemCount itemsPerPage).
Proof.
  intros H. specialize (H 0%Z 3%Z ltac:(lia) ltac:(auto)).
  vm_compute in H. discriminate.
Qed.

(** C3 (as the code has it).  For a number of items and one or three
    items a page, the page count is the ceiling of their quotient, with no
    minimum: it is the least number of pages that hold the items, it is
    at least one exactly when there is an item, and where there is one it
    is the page count of the specification. *)
Theorem page_count_is_ceiling (itemCount itemsPerPage : Z) :
  (0 <= itemCount)%Z ->
  itemsPerPage = 1%Z \/ itemsPerPage = 3%Z ->
  let pageCount := Carousel.computePageCount itemCount itemsPerPage in
  (itemsPerPage * (pageCount - 1) < itemCount <= itemsPerPage * pageCount)%Z
  /\ (1 <= pageCount <-> 1 <= itemCount)%Z
  /\ (1 <= itemCount ->
      pageCount = Carousel.spec_pageCount itemCount itemsPerPage)%Z
  /\ Carousel.computePageCount 7 3 = 3%Z
  /\ Carousel.computePageCount 0 3 = 0%Z
  /\ Double.computePageCount 7 3 = Some 3%Z
  /\ Double.computePageCount 0 3 = Some 0%Z.
Proof.
  intros Hn Hp pageCount.
  assert (E : pageCount = ((itemCount + itemsPerPage - 1) / itemsPerPage)%Z)
    by now apply CarouselFacts.computePageCount_ceiling.
  assert (B : (itemsPerPage * (pageCount - 1) < itemCount
               <= itemsPerPage * pageCount)%Z).
  { rewrite E. destruct Hp as [-> | ->].
    - rewrite Z.div_1_r. lia.
    - pose proof (Z.div_mod (itemCount + 3 - 1) 3 ltac:(lia)).
      pose proof (Z.mod_pos_bound (itemCount + 3 - 1) 3 ltac:(lia)).
      lia. }
  assert (P : (1 <= pageCount <-> 1 <= itemCount)%Z)
    by (destruct Hp as [-> | ->]; lia).
  repeat split; try (apply B); try (apply P).
  intros H1. unfold Carousel.spec_pageCount.
  fold (Carousel.computePageCount itemCount itemsPerPage). fold pageCount.
  apply P in H1. lia.
Qed.

Lemma page_count_is_ceiling_witness :
  (3 * (Carousel.computePageCount 7 3 - 1) < 7
   <= 3 * Carousel.computePageCount 7 3)%Z
  /\ Carousel.computePageCount 7 3 = Carousel.spec_pageCount 7 3.
Proof.
  destruct (page_count_is_ceiling 7 3) as (B & _ & S & _); [lia | auto |].
  split; [exact B | apply S; lia].
Defined.

(** C8. The translation of the track for page [index] is
    [-index * (100 / itemsPerPage)] percent, over doubles as over exact
    numbers, and that is what [moveCarousel] sets: for page 1 of a
    three-item carousel it is [-100 / 3], a little under -33.33, and for
    page 2 of a one-item carousel it is -200. *)
Theorem page_offset_percent :
  (forall index itemsPerPage : float,
      Double.pageOffsetPercent index itemsPerPage
      = ((- index) * (100 / itemsPerPage))%float)
  /\ Double.pageOffsetPercent 1 3 = (-100 / 3)%float
  /\ (-33.34375 <? Double.pageOffsetPercent 1 3)%float = true
  /\ (Double.pageOffsetPercent 1 3 <? -33.328125)%float = true
  /\ Double.pageOffsetPercent 2 1 = (-200)%float
  /\ (forall index itemsPerPage : Z,
        (Carousel.pageOffsetPercent index itemsPerPage
         == - inject_Z index * (100 / inject_Z itemsPerPage))%Q)
  /\ (forall innerWidth index c,
        Carousel.translateX (Carousel.moveCarousel innerWidth index c)
        = Carousel.pageOffsetPercent (Z.of_nat index)
                                     (Carousel.itemsPerPage innerWidth))
  /\ (Carousel.pageOffsetPercent 1 3 == - (100 # 3))%Q
  /\ (Carousel.pageOffsetPercent 2 1 == - 200)%Q.
Proof.
  split; [|repeat split].
  - intros index itemsPerPage. unfold Double.pageOffsetPercent.
    apply double_opp_mul.
  - intros index itemsPerPage. unfold Carousel.pageOffsetPercent. ring.
Qed.

(** The breakpoint only ever gives one or three items a page. *)
Lemma itemsPerPage_values (innerWidth : Z) :
  Carousel.itemsPerPage innerWidth = 1%Z
  \/ Carousel.itemsPerPage innerWidth = 3%Z.
Proof.
  unfold Carousel.itemsPerPage. destruct (768 <=? innerWidth)%Z; auto.
Qed.

(** ** Hovering *)

Module HoverFacts.

Import Carousel.

Lemma In_clearInterval (id id' : nat) (l : list nat) :
  In id l -> id <> id' -> In id (clearInterval id' l).
Proof.
  intros Hin Hne. unfold clearInterval. apply filter_In. split; [assumption|].
  apply negb_true_iff. now apply Nat.eqb_neq.
Qed.

(** An interval other than the first one is never cleared. *)
Lemma later_interval_survives
    (innerWidth : Z) (id : nat) (evs : list Event) (p : Page) :
  id <> autoScrollInterval ->
  In id (running p) ->
  In id (running (run innerWidth p evs)).
Proof.
  intros Hne. unfold run. revert p.
  induction evs as [|ev evs IH]; intros p Hin; simpl; [assumption|].
  apply IH. destruct ev as [| | id']; simpl.
  - now apply In_clearInterval.
  - apply in_or_app. now left.
  - now destruct (isRunning id' p).
Qed.

Lemma reachable_nextTimerId (innerWidth : Z) (c0 : State) (p : Page) :
  reachable innerWidth c0 p -> autoScrollInterval < nextTimerId p.
Proof.
  unfold autoScrollInterval.
  induction 1 as [|p ev p' _ IH Hstep]; simpl; [lia|].
  destruct Hstep as [p | p | p id Hrun]; simpl; try lia.
  unfold step. rewrite Hrun. simpl. lia.
Qed.

Lemma isRunning_In (id : nat) (p : Page) :
  isRunning id p = true <-> In id (running p).
Proof.
  unfold isRunning. rewrite existsb_exists. split.
  - intros (x & Hin & E). apply Nat.eqb_eq in E. now subst.
  - intros H. exists id. split; [assumption | apply Nat.eqb_refl].
Qed.

(** Entering the carousel stops the first interval, and up to the first
    exit nothing else runs. *)
Lemma first_enter_suspends (innerWidth : Z) (c0 : State) :
  running (step innerWidth (initial c0) MouseEnter) = []
  /\ hovering (step innerWidth (initial c0) MouseEnter) = true.
Proof. split; reflexivity. Qed.

(** Leaving the carousel starts an interval. *)
Lemma leave_starts_interval (innerWidth : Z) (p : Page) :
  isRunning (nextTimerId p) (step innerWidth p MouseLeave) = true
  /\ hovering (step innerWidth p MouseLeave) = false.
Proof.
  split; [|reflexivity]. apply isRunning_In. simpl.
  apply in_or_app. right. now left.
Qed.

(** Once the pointer has left the carousel, the interval that this exit
    started keeps running through every later hover. *)
Lemma hover_after_leave_does_not_suspend
    (innerWidth : Z) (c0 : State) (p : Page) (evs : list Event) :
  reachable innerWidth c0 p ->
  let p' := step innerWidth
              (run innerWidth (step innerWidth p MouseLeave) evs)
              MouseEnter in
  hovering p' = true /\ isRunning (nextTimerId p) p' = true.
Proof.
  intros Hr p'. split; [reflexivity|].
  apply isRunning_In.
  pose proof (reachable_nextTimerId innerWidth c0 p Hr) as Hid.
  assert (E : p' = run innerWidth (step innerWidth p MouseLeave)
                       (evs ++ [MouseEnter])).
  { unfold p', run. now rewrite fold_left_app. }
  rewrite E. apply later_interval_survives; [lia|].
  apply isRunning_In, leave_starts_interval.
Qed.

End HoverFacts.

(** C9 (where the code departs from it).  The pointer enters the carousel,
    leaves it and enters it again: the page is then hovered, the interval
    that the exit started is running, its tick is a step of the page, and
    that step moves the carousel from its first to its second page. *)
Theorem auto_advance_fires_while_hovering :
  let p := Carousel.run 1024 (Carousel.initial Examples.threePages)
                        Examples.hoverAgain in
  Carousel.reachable 1024 Examples.threePages p
  /\ Carousel.hovering p = true
  /\ Carousel.running p = [1]
  /\ Carousel.autoAdvanceCanFire p = true
  /\ Carousel.steps 1024 p (Carousel.Tick 1)
                    (Carousel.step 1024 p (Carousel.Tick 1))
  /\ Carousel.dots (Carousel.carousel p) = [true; false; false]
  /\ Carousel.dots (Carousel.carousel (Carousel.step 1024 p (Carousel.Tick 1)))
     = [false; true; false].
Proof.
  cbv zeta. unfold Carousel.run, Examples.hoverAgain. cbn [fold_left].
  split; [|split; [|split; [|split; [|split; [|split]]]]];
    try reflexivity.
  - eapply Carousel.ReachStep; [|apply Carousel.StepEnter].
    eapply Carousel.ReachStep; [|apply Carousel.StepLeave].
    eapply Carousel.ReachStep; [|apply Carousel.StepEnter].
    apply Carousel.ReachInit.
  - apply Carousel.StepTick. reflexivity.
Qed.

(** ** The enhanced handler *)

Module EnhancedFacts.

Import Enhanced.

(** The honeypot comes first in the enhanced handler as well. *)
Lemma honeypot_first (company : jsstring) (raw : FormData) :
  trim company <> [] ->
  onSubmit company raw = Rejected (lit "Spam detected.") false.
Proof.
  intros H. unfold onSubmit. apply isEmpty_false in H. now rewrite H.
Qed.

(** Its required-field check trims the name, address and phone controls
    and takes the date and the service type as they are. *)
Lemma missing_field (company : jsstring) (raw : FormData) :
  trim company = [] ->
  trim (firstName raw) = [] \/ trim (lastName raw) = []
  \/ trim (email raw) = [] \/ trim (phone raw) = []
  \/ date raw = [] \/ serviceType raw = [] ->
  onSubmit company raw = Rejected (lit "Please fill required fields.") true.
Proof.
  intros Hc H. unfold onSubmit. rewrite Hc. simpl isEmpty. simpl negb.
  cbv iota.
  replace (someRequiredEmpty (collect raw)) with true; [reflexivity|].
  symmetry. destruct (someRequiredEmpty (collect raw)) eqn:E; [reflexivity|].
  pose proof (proj1 (Enhanced_someRequiredEmpty_false (collect raw)) E) as A.
  unfold requiredFields in A.
  destruct H as [H|[H|[H|[H|[H|H]]]]].
  - exfalso. apply (A firstName); [simpl; tauto | exact H].
  - exfalso. apply (A lastName); [simpl; tauto | exact H].
  - exfalso. apply (A email); [simpl; tauto | exact H].
  - exfalso. apply (A phone); [simpl; tauto | exact H].
  - exfalso. apply (A date); [simpl; tauto | exact H].
  - exfalso. apply (A serviceType); [simpl; tauto | exact H].
Qed.

Lemma missing_field_witness :
  onSubmit [] (Examples.withFirstName (lit "   ") Examples.booking)
  = Rejected (lit "Please fill required fields.") true.
Proof.
  apply missing_field; [reflexivity|]. left. reflexivity.
Defined.

(** It has no date rule: a booking dated yesterday is sent. *)
Lemma past_date_passes :
  onSubmit [] (Examples.withDate Examples.yesterday Examples.booking)
  = Sending (Examples.withDate Examples.yesterday Examples.booking).
Proof. vm_compute. reflexivity. Qed.

(** A service type of white space alone is not missing for it. *)
Lemma blank_service_type_passes :
  onSubmit []
    (mkFormData (lit "Ann") (lit "Lee") (lit "a@b.c") (lit "123-456-7890")
                Examples.today (lit " ") [])
  = Sending
      (mkFormData (lit "Ann") (lit "Lee") (lit "a@b.c") (lit "123-456-7890")
                  Examples.today (lit " ") []).
Proof. vm_compute. reflexivity. Qed.

End EnhancedFacts.

(** ** The worked examples of the specification *)

Lemma example_valid_booking :
  validateFormData Examples.kathmandu Examples.booking = render Valid.
Proof. vm_compute. reflexivity. Qed.

Lemma example_bad_email :
  validateFormData Examples.kathmandu
    (Examples.withEmail (lit "not-an-email") Examples.booking)
  = render (Invalid BadEmail).
Proof. vm_compute. reflexivity. Qed.

Lemma example_short_phone :
  validateFormData Examples.kathmandu
    (Examples.withPhone (lit "12345") Examples.booking)
  = render (Invalid BadPhone).
Proof. vm_compute. reflexivity. Qed.

Lemma example_yesterday :
  validateFormData Examples.kathmandu
    (Examples.withDate Examples.yesterday Examples.booking)
  = render (Invalid PastDate).
Proof. vm_compute. reflexivity. Qed.

(** ** [debounce] *)

Module DebounceFacts.

Import Debounce.

Lemma settled_initial (A : Type) : settled (@initial A).
Proof. now left. Qed.

Lemma settled_step (A : Type) (s : State A) (ev : Event A) :
  settled s -> settled (step s ev).
Proof.
  unfold settled.
  intros [Hnil | (id & args & Ht & Hl & Hid)]; destruct ev as [a | i];
    unfold step, executedFunction, later;
    cbn [timers timeout nextId calls].
  - right. exists (nextId s), a. rewrite Hnil.
    destruct (timeout s); simpl; auto.
  - rewrite Hnil. simpl. now left.
  - right. exists (nextId s), a. rewrite Ht, Hl. simpl.
    rewrite Nat.eqb_refl. simpl. auto.
  - rewrite Hl. simpl. destruct (Nat.eqb_spec id i) as [->|Hne]; simpl.
    + left. now destruct (timeout s).
    + right. exists id, args. auto.
Qed.

Lemma settled_run (A : Type) (evs : list (Event A)) (s : State A) :
  settled s -> settled (run s evs).
Proof.
  unfold run. revert s.
  induction evs as [|ev evs IH]; intros s H; simpl; [assumption|].
  now apply IH, settled_step.
Qed.

(** Calls alone: the function is not called, and the one timer left is
    the one of the last call. *)
Lemma run_calls (A : Type) (l : list A) (a : A) (s : State A) :
  settled s ->
  let s' := run s (List.map Call (l ++ [a])) in
  calls s' = calls s
  /\ exists id, timeout s' = Some id /\ timers s' = [(id, a)].
Proof.
  revert s. induction l as [|b l IH]; intros s Hs; simpl.
  - split; [reflexivity|]. exists (nextId s). split; [reflexivity|].
    destruct Hs as [Hnil | (id & args & Ht & Hl & _)].
    + rewrite Hnil. now destruct (timeout s).
    + rewrite Ht, Hl. simpl. now rewrite Nat.eqb_refl.
  - destruct (IH (executedFunction b s)) as (Hc & id & Ht & Hl).
    + apply (settled_step A s (Call b) Hs).
    + split; [exact Hc|]. now exists id.
Qed.

End DebounceFacts.

(** X1. However many calls of a debounced function come before its timer
    runs out, the function is not called by them; one timer is then set,
    and when it runs out the function is called once, with the arguments
    of the last call, and no timer is left. *)
Theorem debounce_calls_once
    (A : Type) (evs : list (Debounce.Event A)) (l : list A) (a : A) :
  let s := Debounce.run Debounce.initial evs in
  let s' := Debounce.run s (List.map Debounce.Call (l ++ [a])) in
  Debounce.calls s' = Debounce.calls s
  /\ exists id,
       Debounce.timers s' = [(id, a)]
       /\ Debounce.calls (Debounce.step s' (Debounce.Fire id))
          = Debounce.calls s ++ [a]
       /\ Debounce.timers (Debounce.step s' (Debounce.Fire id)) = [].
Proof.
  intros s s'.
  assert (Hs : Debounce.settled s)
    by apply DebounceFacts.settled_run, DebounceFacts.settled_initial.
  destruct (DebounceFacts.run_calls A l a s Hs) as (Hc & id & Ht & Hl).
  fold s' in Hc, Ht, Hl.
  split; [exact Hc|]. exists id. split; [exact Hl|].
  unfold Debounce.step. rewrite Hl. cbn [find fst]. rewrite Nat.eqb_refl.
  unfold Debounce.later. cbn [Debounce.calls Debounce.timers Debounce.timeout].
  rewrite Hc. split; [reflexivity|].
  cbn [filter fst]. rewrite Nat.eqb_refl. cbn [negb].
  now destruct (Debounce.timeout s').
Qed.

(** X2. In every run of a debounced function at most one timer is set, and
    it is the one whose id the closure holds. *)
Theorem debounce_one_timer (A : Type) (evs : list (Debounce.Event A)) :
  let s := Debounce.run Debounce.initial evs in
  List.length (Debounce.timers s) <= 1
  /\ (forall id args, In (id, args) (Debounce.timers s) ->
                      Debounce.timeout s = Some id).
Proof.
  intros s.
  assert (Hs : Debounce.settled s)
    by apply DebounceFacts.settled_run, DebounceFacts.settled_initial.
  destruct Hs as [Hnil | (id & args & Ht & Hl & _)].
  - rewrite Hnil. simpl. split; [lia | tauto].
  - rewrite Hl. simpl. split; [lia|].
    intros id' args' [[= <- <-] | []]. exact Ht.
Qed.

(** ** [throttle] *)

Module ThrottleFacts.

Import Throttle.

Lemma balanced_step (A : Type) (s : State A) (ev : Event A) :
  balanced s -> balanced (step s ev).
Proof.
  unfold balanced. intros [Ht Hc]. destruct ev as [a|]; simpl.
  - destruct (inThrottle s) eqn:E; simpl; [now rewrite E|].
    rewrite length_app. simpl. lia.
  - destruct (resetTimers s) as [|n] eqn:E; simpl; [now rewrite E|].
    destruct (inThrottle s); [|discriminate]. split; lia.
Qed.

Lemma balanced_run (A : Type) (evs : list (Event A)) (s : State A) :
  balanced s -> balanced (run s evs).
Proof.
  unfold run. revert s.
  induction evs as [|ev evs IH]; intros s H; simpl; [assumption|].
  now apply IH, balanced_step.
Qed.

Lemma run_calls_throttled (A : Type) (l : list A) (s : State A) :
  inThrottle s = true -> run s (List.map Call l) = s.
Proof.
  intros H. induction l as [|a l IH]; simpl; [reflexivity|].
  now rewrite H.
Qed.

End ThrottleFacts.

(** X3. In every run of a throttled function its flag is up exactly while
    one reset timer is set, never more than one is set, and the calls that
    went through are the resets that have run plus the one still to run:
    at most one call goes through per reset. *)
Theorem throttle_one_call_per_window
    (A : Type) (evs : list (Throttle.Event A)) :
  let s := Throttle.run Throttle.initial evs in
  Throttle.resetTimers s = (if Throttle.inThrottle s then 1 else 0)
  /\ List.length (Throttle.calls s)
     = Throttle.resetsRun s + Throttle.resetTimers s
  /\ List.length (Throttle.calls s) <= S (Throttle.resetsRun s).
Proof.
  intros s.
  assert (B : Throttle.balanced s).
  { apply ThrottleFacts.balanced_run. split; reflexivity. }
  destruct B as [Ht Hc]. repeat split; try assumption.
  rewrite Hc, Ht. destruct (Throttle.inThrottle s); lia.
Qed.

(** X4. Of calls of a throttled function that follow one another without
    its timer running out, only the first goes through, and the first call
    after the timer has run out goes through again. *)
Theorem throttle_drops_burst (A : Type) (a b : A) (l l' : list A) :
  Throttle.calls
    (Throttle.run Throttle.initial (List.map Throttle.Call (a :: l)))
  = [a]
  /\ Throttle.calls
       (Throttle.run Throttle.initial
          (List.map Throttle.Call (a :: l)
           ++ Throttle.Fire :: List.map Throttle.Call (b :: l')))
     = [a; b].
Proof.
  split.
  - simpl. unfold Throttle.run.
    change (fold_left Throttle.step (List.map Throttle.Call l) ?s)
      with (Throttle.run s (List.map Throttle.Call l)).
    now rewrite ThrottleFacts.run_calls_throttled.
  - unfold Throttle.run. rewrite fold_left_app. simpl.
    change (fold_left Throttle.step (List.map Throttle.Call l) ?s)
      with (Throttle.run s (List.map Throttle.Call l)).
    rewrite ThrottleFacts.run_calls_throttled by reflexivity. simpl.
    change (fold_left Throttle.step (List.map Throttle.Call l') ?s)
      with (Throttle.run s (List.map Throttle.Call l')).
    now rewrite ThrottleFacts.run_calls_throttled.
Qed.

(** ** The mobile menu *)

Module MenuFacts.

Import Menu.

Lemma consistent_toggle (s : State) : consistent (toggleMobileMenu s).
Proof. unfold consistent. simpl. auto. Qed.

Lemma consistent_close (s : State) : consistent (closeMobileMenu s).
Proof. unfold consistent. simpl. auto. Qed.

Lemma consistent_step (s : State) (ev : Event) :
  consistent s -> consistent (step s ev).
Proof.
  intros H. destruct ev; simpl.
  - apply consistent_toggle.
  - apply consistent_close.
  - destruct (navMenuActive s); [apply consistent_close | assumption].
  - destruct (navMenuActive s); [apply consistent_close | assumption].
Qed.

End MenuFacts.

(** X5. The signs of the v2.0.0 menu (the hamburger's [aria-expanded] and
    class, the classes of the menu, the overlay and the body, the
    overlay's [aria-hidden]) agree after a click on the hamburger or on
    the overlay whatever they were before, and once they agree no event
    makes them disagree; two clicks on the hamburger give the signs
    back. *)
Theorem menu_signs_agree (s : Menu.State) (evs : list Menu.Event) :
  Menu.consistent (Menu.step s Menu.ClickHamburger)
  /\ Menu.consistent (Menu.step s Menu.ClickOverlay)
  /\ (Menu.consistent s ->
      Menu.consistent (Menu.run s evs)
      /\ Menu.ariaExpanded
           (Menu.run s [Menu.ClickHamburger; Menu.ClickHamburger])
         = Menu.ariaExpanded s
      /\ Menu.navMenuActive
           (Menu.run s [Menu.ClickHamburger; Menu.ClickHamburger])
         = Menu.navMenuActive s).
Proof.
  split; [apply MenuFacts.consistent_toggle|].
  split; [apply MenuFacts.consistent_close|].
  intros H. split; [|split].
  - unfold Menu.run. revert s H.
    induction evs as [|ev evs IH]; intros s H; simpl; [assumption|].
    now apply IH, MenuFacts.consistent_step.
  - simpl. apply negb_involutive.
  - simpl. destruct H as (_ & -> & _). apply negb_involutive.
Qed.

Lemma menu_signs_agree_witness :
  Menu.consistent
    (Menu.run Menu.closed
       [Menu.ClickHamburger; Menu.KeyEscape; Menu.ClickHamburger])
  /\ Menu.navMenuActive
       (Menu.run Menu.closed [Menu.ClickHamburger; Menu.ClickHamburger])
     = false.
Proof.
  destruct (menu_signs_agree Menu.closed
              [Menu.ClickHamburger; Menu.KeyEscape; Menu.ClickHamburger])
    as (_ & _ & H).
  destruct H as (A & _ & C).
  - unfold Menu.consistent. simpl. auto.
  - split; [exact A | exact C].
Defined.

(** From every state of the v2.0.0 menu, a click on the overlay, a
    click on a link of the menu and the Escape key leave the menu closed
    and the focus where it was; a click on the hamburger that opens the
    menu moves the focus to the first link when there is one, and a click
    that closes it moves the focus to the hamburger. *)
Theorem menu_closes_and_focus (s : Menu.State) (ev : Menu.Event) :
  (ev <> Menu.ClickHamburger ->
   Menu.navMenuActive (Menu.step s ev) = false
   /\ Menu.focus (Menu.step s ev) = Menu.focus s)
  /\ (Menu.ariaExpanded s = false -> Menu.hasNavLinks s = true ->
      Menu.focus (Menu.step s Menu.ClickHamburger) = Menu.OnFirstNavLink)
  /\ (Menu.ariaExpanded s = true ->
      Menu.focus (Menu.step s Menu.ClickHamburger) = Menu.OnHamburger
      /\ Menu.navMenuActive (Menu.step s Menu.ClickHamburger) = false).
Proof.
  split; [|split].
  - intros Hev. destruct ev; simpl; try (now destruct Hev); auto;
      destruct (Menu.navMenuActive s) eqn:E; simpl; auto.
  - intros H1 H2. simpl. now rewrite H1, H2.
  - intros H1. simpl. now rewrite H1.
Qed.

Lemma menu_closes_and_focus_witness :
  Menu.navMenuActive
    (Menu.step (Menu.step Menu.closed Menu.ClickHamburger) Menu.KeyEscape)
  = false
  /\ Menu.focus (Menu.step Menu.closed Menu.ClickHamburger)
     = Menu.OnFirstNavLink.
Proof.
  split.
  - apply (proj1 (menu_closes_and_focus
                    (Menu.step Menu.closed Menu.ClickHamburger)
                    Menu.KeyEscape)).
    discriminate.
  - apply (proj1 (proj2 (menu_closes_and_focus Menu.closed
                           Menu.ClickHamburger))); reflexivity.
Defined.

(** X6. The menu of the enhanced script flips its classes instead of
    setting them: along every run, whether the [aria-expanded] of the
    hamburger and the class of the menu agree, and whether the classes of
    the hamburger and of the menu agree, stays what it was at the start,
    so a disagreement is never repaired; a click on a link always leaves
    the menu without its class. *)
Theorem enhanced_menu_flips
    (s : EnhancedMenu.State) (evs : list EnhancedMenu.Event) :
  let s' := EnhancedMenu.run s evs in
  xorb (EnhancedMenu.ariaExpanded s') (EnhancedMenu.navMenuActive s')
  = xorb (EnhancedMenu.ariaExpanded s) (EnhancedMenu.navMenuActive s)
  /\ xorb (EnhancedMenu.hamburgerActive s') (EnhancedMenu.navMenuActive s')
     = xorb (EnhancedMenu.hamburgerActive s) (EnhancedMenu.navMenuActive s)
  /\ EnhancedMenu.navMenuActive
       (EnhancedMenu.step s' EnhancedMenu.ClickNavLink) = false.
Proof.
  cbv zeta. split; [|split].
  - unfold EnhancedMenu.run. revert s.
    induction evs as [|ev evs IH]; intros s; simpl; [reflexivity|].
    rewrite IH. destruct ev; simpl;
      [|destruct (EnhancedMenu.navMenuActive s) eqn:E; simpl; rewrite ?E];
      now destruct (EnhancedMenu.ariaExpanded s),
                   (EnhancedMenu.navMenuActive s).
  - unfold EnhancedMenu.run. revert s.
    induction evs as [|ev evs IH]; intros s; simpl; [reflexivity|].
    rewrite IH. destruct ev; simpl;
      [|destruct (EnhancedMenu.navMenuActive s) eqn:E; simpl; rewrite ?E];
      now destruct (EnhancedMenu.hamburgerActive s),
                   (EnhancedMenu.navMenuActive s).
  - simpl. destruct (EnhancedMenu.navMenuActive (EnhancedMenu.run s evs))
      eqn:E; simpl; now rewrite ?E.
Qed.

(** ** The active link of the navigation *)

Module NavLinksFacts.

Import NavLinks.

Lemma markLinks_hrefs (id : jsstring) (links : list Link) :
  List.map href (markLinks id links) = List.map href links.
Proof.
  unfold markLinks. rewrite map_map. apply map_ext.
  intros l. now destruct (pointsTo id l).
Qed.

(** Marking looks at the [href]s only. *)
Lemma markLinks_ext (id : jsstring) (links links' : list Link) :
  List.map href links = List.map href links' ->
  markLinks id links = markLinks id links'.
Proof.
  revert links'. induction links as [|l links IH]; intros [|l' links'] H;
    simpl in *; try discriminate; [reflexivity|].
  injection H as Hh Ht. unfold pointsTo. rewrite Hh.
  f_equal. now apply IH.
Qed.

Lemma updateActiveNavLink_hrefs
    (sections : list PageSection) (scrollY : Q) (links : list Link) :
  List.map href (updateActiveNavLink sections scrollY links)
  = List.map href links.
Proof.
  unfold updateActiveNavLink. revert links.
  induction sections as [|sec sections IH]; intros links; simpl;
    [reflexivity|].
  rewrite IH. destruct (contains _ sec); [apply markLinks_hrefs | reflexivity].
Qed.

End NavLinksFacts.

(** X7. [updateActiveNavLink] leaves the links as they are when no section
    lies under the scroll position (150 pixels below the top of the
    window); otherwise the links that carry the class and the attribute
    afterwards are exactly those to the last section, in document order,
    that lies under it, whatever the links carried before. *)
Theorem nav_link_last_section_wins
    (sections : list NavLinks.PageSection) (scrollY : Q)
    (links : list NavLinks.Link) :
  NavLinks.updateActiveNavLink sections scrollY links
  = match find (NavLinks.contains (scrollY + 150)%Q) (rev sections) with
    | Some sec => NavLinks.markLinks (NavLinks.sectionId sec) links
    | None => links
    end.
Proof.
  induction sections as [|sec sections IH] using rev_ind; [reflexivity|].
  rewrite rev_app_distr. simpl.
  unfold NavLinks.updateActiveNavLink in *. rewrite fold_left_app. simpl.
  destruct (NavLinks.contains (scrollY + 150)%Q sec).
  - apply NavLinksFacts.markLinks_ext.
    apply (NavLinksFacts.updateActiveNavLink_hrefs sections scrollY links).
  - exact IH.
Qed.

(** ** The portfolio filter *)

Module PortfolioFacts.

Import Portfolio.

(** The clicks as they act on one item. *)
Lemma clicks_item (filters : list (option jsstring)) (items : list Item) :
  clicks filters items
  = List.map
      (fun item =>
         fold_left (fun it f =>
                      mkItem (category it)
                             (if shouldShow f it then Block else NoDisplay)
                             (visible it || shouldShow f it))
                   filters item)
      items.
Proof.
  unfold clicks. revert items.
  induction filters as [|f filters IH]; intros items; simpl.
  - symmetry. apply map_id.
  - rewrite IH. unfold filterPortfolio. now rewrite map_map.
Qed.

Lemma fold_item (filters : list (option jsstring)) (item : Item) :
  let item' :=
    fold_left (fun it f =>
                 mkItem (category it)
                        (if shouldShow f it then Block else NoDisplay)
                        (visible it || shouldShow f it))
              filters item in
  category item' = category item
  /\ visible item'
     = visible item || existsb (fun f => shouldShow f item) filters
  /\ (forall f, display
                  (mkItem (category item')
                          (if shouldShow f item' then Block else NoDisplay)
                          (visible item' || shouldShow f item'))
                = if shouldShow f item then Block else NoDisplay).
Proof.
  revert item. induction filters as [|g filters IH]; intros item; simpl.
  - rewrite orb_false_r. auto.
  - destruct (IH (mkItem (category item)
                         (if shouldShow g item then Block else NoDisplay)
                         (visible item || shouldShow g item)))
      as (Hc & Hv & Hd).
    simpl in Hc, Hv, Hd. split; [exact Hc|]. split.
    + rewrite Hv, <- orb_assoc. reflexivity.
    + exact Hd.
Qed.

End PortfolioFacts.

(** X8. After any clicks on filter buttons, an item of the portfolio is
    displayed exactly when the last filter clicked is ['all'] or its
    category, whatever was clicked before; its category is untouched; and
    it has the class [visible] exactly when it had it before or one of
    the filters clicked showed it: the class is never taken away. *)
Theorem portfolio_last_filter_wins
    (filters : list (option jsstring)) (last : option jsstring)
    (items : list Portfolio.Item) :
  let after := Portfolio.clicks (filters ++ [last]) items in
  List.map Portfolio.display after
  = List.map (fun item => if Portfolio.shouldShow last item
                          then Portfolio.Block else Portfolio.NoDisplay)
             items
  /\ List.map Portfolio.category after = List.map Portfolio.category items
  /\ List.map Portfolio.visible after
     = List.map (fun item =>
                   Portfolio.visible item
                   || existsb (fun f => Portfolio.shouldShow f item)
                              (filters ++ [last]))
                items.
Proof.
  cbv zeta. rewrite PortfolioFacts.clicks_item, !map_map.
  split; [|split]; apply map_ext; intros item.
  - rewrite fold_left_app. simpl.
    apply (proj2 (proj2 (PortfolioFacts.fold_item filters item))).
  - apply (proj1 (PortfolioFacts.fold_item (filters ++ [last]) item)).
  - apply (proj1 (proj2 (PortfolioFacts.fold_item (filters ++ [last]) item))).
Qed.

(** ** The categories and their carousels *)

Module GalleryFacts.

Import Gallery.

Lemma str_true (s t : jsstring) : StrictEq.str s t = true <-> s = t.
Proof.
  unfold StrictEq.str. destruct (list_eq_dec N.eq_dec s t); split;
    congruence.
Qed.

Lemma str_false (s t : jsstring) : StrictEq.str s t = false <-> s <> t.
Proof.
  unfold StrictEq.str. destruct (list_eq_dec N.eq_dec s t); split;
    congruence.
Qed.

Lemma str_refl (s : jsstring) : StrictEq.str s s = true.
Proof. now apply str_true. Qed.

Lemma find_app_skip (A : Type) (p : A -> bool) (l l' : list A) :
  Forall (fun x => p x = false) l -> find p (l ++ l') = find p l'.
Proof.
  induction 1 as [|x l Hx _ IH]; simpl; [reflexivity|]. now rewrite Hx.
Qed.

Lemma find_map_same (A : Type) (p : A -> bool) (f : A -> A) (l : list A) :
  (forall x, p (f x) = p x) ->
  find p (List.map f l) = option_map f (find p l).
Proof.
  intros H. induction l as [|x l IH]; simpl; [reflexivity|].
  rewrite H. now destruct (p x).
Qed.

Lemma setTransform_app_skip
    (cid : jsstring) (t : Q) (pre l : list Category) :
  Forall (fun c => StrictEq.str (id c) cid = false) pre ->
  setTransform cid t (pre ++ l) = pre ++ setTransform cid t l.
Proof.
  induction 1 as [|c pre Hc _ IH]; simpl; [reflexivity|].
  now rewrite Hc, IH.
Qed.

Lemma keeps_refl (c : Category) : keeps c c.
Proof. unfold keeps. auto. Qed.

Lemma keeps_trans (a b c : Category) : keeps a b -> keeps b c -> keeps a c.
Proof.
  unfold keeps. intros (H1 & H2 & H3) (H4 & H5 & H6).
  repeat split; try congruence. auto.
Qed.

Lemma Forall2_keeps_refl (l : list Category) : Forall2 keeps l l.
Proof. induction l; constructor; auto using keeps_refl. Qed.

Lemma Forall2_keeps_trans (l1 l2 l3 : list Category) :
  Forall2 keeps l1 l2 -> Forall2 keeps l2 l3 -> Forall2 keeps l1 l3.
Proof.
  intros H. revert l3. induction H as [|a b l1 l2 Hab _ IH]; intros l3 H23.
  - inversion H23. constructor.
  - inversion H23; subst. constructor; eauto using keeps_trans.
Qed.

Lemma setTransform_keeps (cid : jsstring) (t : Q) (l : list Category) :
  Forall2 keeps l (setTransform cid t l).
Proof.
  induction l as [|c l IH]; simpl; [constructor|].
  destruct (StrictEq.str (id c) cid).
  - constructor; [|apply Forall2_keeps_refl]. unfold keeps. simpl. auto.
  - constructor; [apply keeps_refl | exact IH].
Qed.

Lemma initCarouselDots_categories (cid : jsstring) (d : Doc) :
  categories (initCarouselDots cid d) = categories d.
Proof.
  unfold initCarouselDots.
  destruct (getElementById cid (categories d)) as [c|]; [|reflexivity].
  now destruct (container c).
Qed.

Lemma moveCarousel_keeps (cid : jsstring) (i : nat) (d d' : Doc) :
  moveCarousel cid i d = Some d' ->
  Forall2 keeps (categories d) (categories d').
Proof.
  unfold moveCarousel.
  destruct (getElementById cid (categories d)) as [c|]; [|discriminate].
  destruct (container c); [|discriminate].
  intros [= <-]. simpl. apply setTransform_keeps.
Qed.

Lemma step_keeps (d : Doc) (ev : Event) :
  Forall2 keeps (categories d) (categories (step d ev)).
Proof.
  destruct ev as [cid | i | | w]; simpl.
  - unfold categoryClick. rewrite initCarouselDots_categories. simpl.
    induction (categories d) as [|c l IH]; simpl; constructor; [|exact IH].
    unfold keeps. destruct (StrictEq.str (id c) cid); simpl; auto.
  - unfold dotClick.
    destruct (moveCarousel (dotsFor d) i d) as [d'|] eqn:E;
      [|apply Forall2_keeps_refl].
    simpl. now apply (moveCarousel_keeps _ _ _ _ E).
  - unfold autoScrollCarousel.
    destruct (activeCategory (categories d)) as [c|];
      [|apply Forall2_keeps_refl].
    destruct (dots d); [apply Forall2_keeps_refl|].
    destruct (moveCarousel _ _ d) as [d'|] eqn:E;
      [|apply Forall2_keeps_refl].
    simpl. now apply (moveCarousel_keeps _ _ _ _ E).
  - unfold resize. simpl.
    destruct (activeCategory (categories d)) as [c|];
      [|apply Forall2_keeps_refl].
    rewrite initCarouselDots_categories. apply Forall2_keeps_refl.
Qed.

Lemma autoScrollCarousel_active (d : Doc) (c : Category) :
  activeCategory (categories d) = Some c ->
  dots d <> [] ->
  autoScrollCarousel d
  = match moveCarousel
            (id c)
            (Carousel.advance (List.length (dots d))
                              (Carousel.findActiveIndex (dots d))) d with
    | Some d' =>
        updateActiveDot
          (Carousel.advance (List.length (dots d))
                            (Carousel.findActiveIndex (dots d))) d'
    | None => d
    end.
Proof.
  intros Hc Hd. unfold autoScrollCarousel. rewrite Hc.
  destruct (dots d); [now destruct Hd | reflexivity].
Qed.

End GalleryFacts.

(** X9. Whatever the visitor clicks and however the window is resized or
    the timer ticks, the categories stay the same in number and order,
    each keeps its id and its items, and a category that has the class
    [active] never loses it: the class is only ever added. *)
Theorem gallery_active_never_removed
    (d : Gallery.Doc) (evs : list Gallery.Event) :
  Forall2 Gallery.keeps (Gallery.categories d)
          (Gallery.categories (Gallery.run d evs)).
Proof.
  unfold Gallery.run. revert d.
  induction evs as [|ev evs IH]; intros d; simpl.
  - apply GalleryFacts.Forall2_keeps_refl.
  - eapply GalleryFacts.Forall2_keeps_trans;
      [apply GalleryFacts.step_keeps | apply IH].
Qed.

(** X10. A click on a category item hides every category but those with
    the item's id, shows these, gives them the class [active] and puts
    their tracks back to 0; when the page has an element with the id and
    it has a track, the dots are made anew for it, as many as it has
    pages, the first one active; when the page has no such element the
    dots stay as they were. *)
Theorem category_click_switches (cid : jsstring) (d : Gallery.Doc) :
  let d' := Gallery.categoryClick cid d in
  List.map Gallery.hidden (Gallery.categories d')
  = List.map (fun c => negb (StrictEq.str (Gallery.id c) cid))
             (Gallery.categories d)
  /\ List.map Gallery.active (Gallery.categories d')
     = List.map (fun c => Gallery.active c
                          || StrictEq.str (Gallery.id c) cid)
                (Gallery.categories d)
  /\ List.map Gallery.container (Gallery.categories d')
     = List.map (fun c => if StrictEq.str (Gallery.id c) cid
                          then option_map (fun _ => 0%Q) (Gallery.container c)
                          else Gallery.container c)
                (Gallery.categories d)
  /\ (forall c t,
        Gallery.getElementById cid (Gallery.categories d) = Some c ->
        Gallery.container c = Some t ->
        Gallery.dots d'
        = Carousel.dotsAt
            (Z.to_nat (Carousel.computePageCount
                         (Gallery.itemCount c)
                         (Carousel.itemsPerPage (Gallery.innerWidth d)))) 0
        /\ Gallery.dotsFor d' = cid)
  /\ (Gallery.getElementById cid (Gallery.categories d) = None ->
      Gallery.dots d' = Gallery.dots d
      /\ Gallery.dotsFor d' = Gallery.dotsFor d).
Proof.
  cbv zeta. unfold Gallery.categoryClick.
  rewrite GalleryFacts.initCarouselDots_categories. simpl Gallery.categories.
  rewrite !map_map.
  split; [|split; [|split; [|split]]].
  - apply map_ext. intros c.
    now destruct (StrictEq.str (Gallery.id c) cid).
  - apply map_ext. intros c.
    destruct (StrictEq.str (Gallery.id c) cid); simpl;
      [now rewrite orb_true_r | now rewrite orb_false_r].
  - apply map_ext. intros c.
    destruct (StrictEq.str (Gallery.id c) cid); simpl; [|reflexivity].
    now destruct (Gallery.container c).
  - intros c t Hget Hc. unfold Gallery.initCarouselDots, Gallery.getElementById
      in *. simpl Gallery.categories.
    destruct (isEmpty cid); [discriminate|].
    assert (Hs : StrictEq.str (Gallery.id c) cid = true)
      by (now apply find_some in Hget).
    rewrite GalleryFacts.find_map_same, Hget.
    + cbn [option_map]. rewrite Hs. cbn [Gallery.container Gallery.itemCount].
      rewrite Hc. simpl. auto.
    + intros x. simpl.
      destruct (StrictEq.str (Gallery.id x) cid) eqn:E; simpl; now rewrite ?E.
  - intros Hget. unfold Gallery.initCarouselDots, Gallery.getElementById in *.
    simpl Gallery.categories.
    destruct (isEmpty cid); [simpl; auto|].
    rewrite GalleryFacts.find_map_same, Hget; [simpl; auto|].
    intros x. simpl.
      destruct (StrictEq.str (Gallery.id x) cid) eqn:E; simpl; now rewrite ?E.
Qed.

Lemma category_click_switches_witness :
  Gallery.dots (Gallery.categoryClick (lit "portrait") Gallery.twoCategories)
  = Carousel.dotsAt 2 0
  /\ Gallery.dotsFor
       (Gallery.categoryClick (lit "portrait") Gallery.twoCategories)
     = lit "portrait".
Proof.
  apply (proj1 (proj2 (proj2 (proj2
           (category_click_switches (lit "portrait") Gallery.twoCategories))))
           (Gallery.mkCategory (lit "portrait") true false 4 (Some 0%Q)) 0%Q);
    reflexivity.
Defined.

(** X11. The auto-scroll moves the first category, in document order, that
    has the class [active], shown or not.  When such a category [a] comes
    before the category [b] that the visitor then selects (with at least
    two pages), the next tick moves the track of [a], which is hidden, to
    its second page and marks the second dot, while the track of [b],
    which is shown, stays at 0. *)
Theorem auto_scroll_moves_hidden_category
    (d : Gallery.Doc) (pre rest : list Gallery.Category)
    (a b : Gallery.Category) (cid : jsstring) (ta tb : Q) :
  Gallery.categories d = pre ++ a :: rest ->
  Forall (fun c => Gallery.active c = false
                   /\ Gallery.id c <> cid
                   /\ Gallery.id c <> Gallery.id a) pre ->
  Gallery.active a = true ->
  Gallery.id a <> [] ->
  Gallery.id a <> cid ->
  Gallery.container a = Some ta ->
  Gallery.getElementById cid rest = Some b ->
  Gallery.container b = Some tb ->
  (2 <= Carousel.computePageCount
          (Gallery.itemCount b)
          (Carousel.itemsPerPage (Gallery.innerWidth d)))%Z ->
  let d' := Gallery.autoScrollCarousel (Gallery.categoryClick cid d) in
  let offset :=
    Carousel.pageOffsetPercent 1 (Carousel.itemsPerPage (Gallery.innerWidth d))
  in
  Gallery.hiddenOf cid d' = Some false
  /\ Gallery.transformOf cid d' = Some 0%Q
  /\ Gallery.hiddenOf (Gallery.id a) d' = Some true
  /\ Gallery.transformOf (Gallery.id a) d' = Some offset
  /\ ~ (offset == 0)%Q
  /\ Carousel.findActiveIndex (Gallery.dots d') = 1.
Proof.
  intros Hcats Hpre Ha Hida Hne Hta Hb Htb Hpc d' offset.
  pose (n := Z.to_nat (Carousel.computePageCount
                         (Gallery.itemCount b)
                         (Carousel.itemsPerPage (Gallery.innerWidth d)))).
  assert (Hn : 2 <= n) by (unfold n; lia).
  pose (f := fun cat : Gallery.Category =>
               if StrictEq.str (Gallery.id cat) cid
               then Gallery.mkCategory (Gallery.id cat) false true
                      (Gallery.itemCount cat)
                      (match Gallery.container cat with
                       | Some _ => Some 0%Q
                       | None => None
                       end)
               else Gallery.mkCategory (Gallery.id cat) true
                      (Gallery.active cat) (Gallery.itemCount cat)
                      (Gallery.container cat)).
  assert (Hfid : forall x, Gallery.id (f x) = Gallery.id x).
  { intros x. unfold f. now destruct (StrictEq.str (Gallery.id x) cid). }
  assert (Hcid : isEmpty cid = false).
  { unfold Gallery.getElementById in Hb. now destruct (isEmpty cid). }
  assert (Hfind : find (fun c => StrictEq.str (Gallery.id c) cid) rest
                  = Some b).
  { unfold Gallery.getElementById in Hb. now rewrite Hcid in Hb. }
  assert (Hbid : StrictEq.str (Gallery.id b) cid = true).
  { now apply find_some in Hfind. }
  assert (Hacid : StrictEq.str (Gallery.id a) cid = false)
    by now apply GalleryFacts.str_false.
  pose (a' := Gallery.mkCategory (Gallery.id a) true true
                (Gallery.itemCount a) (Some ta)).
  assert (Hfa : f a = a').
  { unfold f, a'. now rewrite Hacid, Ha, Hta. }
  pose (b' := Gallery.mkCategory (Gallery.id b) false true
                (Gallery.itemCount b) (Some 0%Q)).
  assert (Hfb : f b = b').
  { unfold f, b'. now rewrite Hbid, Htb. }
  assert (Hpre_cid : Forall (fun c => StrictEq.str (Gallery.id c) cid = false)
                            (List.map f pre)).
  { apply Forall_map. eapply Forall_impl; [|exact Hpre].
    intros c (_ & H & _). rewrite Hfid. now apply GalleryFacts.str_false. }
  assert (Hpre_a : Forall (fun c => StrictEq.str (Gallery.id c) (Gallery.id a)
                                    = false) (List.map f pre)).
  { apply Forall_map. eapply Forall_impl; [|exact Hpre].
    intros c (_ & _ & H). rewrite Hfid. now apply GalleryFacts.str_false. }
  assert (Hpre_act : Forall (fun c => Gallery.active c = false)
                            (List.map f pre)).
  { apply Forall_map. eapply Forall_impl; [|exact Hpre].
    intros c (H & Hc & _). unfold f.
    apply GalleryFacts.str_false in Hc. now rewrite Hc. }
  assert (Hrest : find (fun c => StrictEq.str (Gallery.id c) cid)
                       (List.map f rest) = Some b').
  { rewrite GalleryFacts.find_map_same, Hfind; [simpl; now rewrite Hfb|].
    intros x. now rewrite Hfid. }
  (* the click *)
  assert (Hclick : Gallery.categoryClick cid d
                   = Gallery.mkDoc (List.map f pre ++ a' :: List.map f rest)
                                   (Carousel.dotsAt n 0) cid
                                   (Gallery.innerWidth d)).
  { unfold Gallery.categoryClick. fold f. rewrite Hcats, map_app. simpl.
    rewrite Hfa. unfold Gallery.initCarouselDots, Gallery.getElementById.
    simpl Gallery.categories. rewrite Hcid.
    rewrite GalleryFacts.find_app_skip by exact Hpre_cid.
    simpl. rewrite Hacid, Hrest. reflexivity. }
  (* the tick *)
  assert (Htick : d'
                  = Gallery.mkDoc
                      (List.map f pre
                       ++ Gallery.mkCategory (Gallery.id a) true true
                            (Gallery.itemCount a) (Some offset)
                          :: List.map f rest)
                      (Carousel.dotsAt n 1) cid (Gallery.innerWidth d)).
  { unfold d'. rewrite Hclick.
    rewrite (GalleryFacts.autoScrollCarousel_active _ a').
    - simpl Gallery.dots. simpl Gallery.id.
      rewrite CarouselFacts.length_dotsAt.
      rewrite CarouselFacts.findActiveIndex_dotsAt by lia.
      assert (Hadv : Carousel.advance n 0 = 1).
      { unfold Carousel.advance. apply Nat.mod_small. lia. }
      rewrite Hadv.
      unfold Gallery.moveCarousel, Gallery.getElementById.
      simpl Gallery.categories.
      rewrite (proj2 (isEmpty_false _) Hida).
      rewrite GalleryFacts.find_app_skip by exact Hpre_a.
      simpl find. rewrite GalleryFacts.str_refl. simpl Gallery.container.
      cbv iota. unfold Gallery.updateActiveDot. simpl.
      rewrite GalleryFacts.setTransform_app_skip by exact Hpre_a.
      simpl. rewrite GalleryFacts.str_refl, CarouselFacts.length_dotsAt.
      reflexivity.
    - unfold Gallery.activeCategory. simpl Gallery.categories.
      rewrite GalleryFacts.find_app_skip by exact Hpre_act. reflexivity.
    - simpl. destruct n; [lia | discriminate]. }
  rewrite Htick. unfold Gallery.hiddenOf, Gallery.transformOf.
  simpl Gallery.categories.
  rewrite !GalleryFacts.find_app_skip by assumption.
  simpl find. rewrite Hacid, GalleryFacts.str_refl, Hrest. simpl.
  repeat split.
  - unfold offset, Carousel.pageOffsetPercent, Carousel.itemsPerPage.
    destruct (768 <=? Gallery.innerWidth d)%Z; discriminate.
  - fold (Carousel.dotsAt n 1).
    apply CarouselFacts.findActiveIndex_dotsAt. lia.
Qed.

Lemma auto_scroll_moves_hidden_category_witness :
  let d' := Gallery.autoScrollCarousel
              (Gallery.categoryClick (lit "portrait") Gallery.twoCategories)
  in
  Gallery.hiddenOf (lit "portrait") d' = Some false
  /\ Gallery.transformOf (lit "portrait") d' = Some 0%Q
  /\ Gallery.hiddenOf (lit "wedding") d' = Some true
  /\ Gallery.transformOf (lit "wedding") d'
     = Some (Carousel.pageOffsetPercent 1 3).
Proof.
  destruct (auto_scroll_moves_hidden_category Gallery.twoCategories []
              [Gallery.mkCategory (lit "portrait") true false 4 (Some 0%Q)]
              (Gallery.mkCategory (lit "wedding") false true 4 (Some 0%Q))
              (Gallery.mkCategory (lit "portrait") true false 4 (Some 0%Q))
              (lit "portrait") 0%Q 0%Q)
    as (A & B & C & D & _);
    try reflexivity; try (constructor; fail);
    try (vm_compute; discriminate).
  auto.
Defined.

(** ** [getTodayISO] *)

Module ISODateFacts.

Import ISODate.

Local Open Scope Z_scope.

Lemma allFrom_spec (f : Z -> bool) (n : nat) (z i : Z) :
  allFrom f n z = true -> z <= i < z + Z.of_nat n -> f i = true.
Proof.
  revert z. induction n as [|n IH]; intros z H Hi; [lia|].
  simpl in H. apply andb_true_iff in H as [Hz Hn].
  destruct (Z.eq_dec i z) as [->|Hne]; [assumption|].
  apply (IH (z + 1)); [assumption | lia].
Qed.

(** The days of an era, one by one. *)
Lemma dayOfEraChecked_all (doe : Z) :
  0 <= doe < 146097 -> dayOfEraChecked doe = true.
Proof.
  intros H.
  apply (allFrom_spec dayOfEraChecked (Z.to_nat 146097) 0);
    [vm_compute; reflexivity | lia].
Qed.

Lemma isLeapYear_era (y e : Z) :
  JSDate.isLeapYear (y + e * 400) = JSDate.isLeapYear y.
Proof.
  unfold JSDate.isLeapYear.
  replace ((y + e * 400) mod 4) with (y mod 4)
    by (replace (y + e * 400) with (y + (e * 100) * 4) by ring;
        now rewrite Z_mod_plus_full).
  replace ((y + e * 400) mod 100) with (y mod 100)
    by (replace (y + e * 400) with (y + (e * 4) * 100) by ring;
        now rewrite Z_mod_plus_full).
  now rewrite Z_mod_plus_full.
Qed.

Lemma daysInMonth_era (y e m : Z) :
  JSDate.daysInMonth (y + e * 400) m = JSDate.daysInMonth y m.
Proof. unfold JSDate.daysInMonth. now rewrite isLeapYear_era. Qed.

Lemma daysInMonth_le_31 (y m : Z) : JSDate.daysInMonth y m <= 31.
Proof.
  unfold JSDate.daysInMonth.
  destruct (m =? 2); [destruct (JSDate.isLeapYear y); lia|].
  destruct ((m =? 4) || (m =? 6) || (m =? 9) || (m =? 11))%bool; lia.
Qed.

(** Moving a date by whole eras moves its day number by as many times
    146097 days. *)
Lemma daysFromCivil_era (yoe e m d : Z) :
  0 <= yoe <= 399 ->
  JSDate.daysFromCivil (yoe + e * 400 + (if m <=? 2 then 1 else 0)) m d
  = JSDate.daysFromCivil (yoe + (if m <=? 2 then 1 else 0)) m d
    + e * 146097.
Proof.
  intros Hy. unfold JSDate.daysFromCivil.
  destruct (m <=? 2).
  - replace (yoe + e * 400 + 1 - 1) with (yoe + e * 400) by ring.
    replace (yoe + 1 - 1) with yoe by ring.
    rewrite Z.div_add by lia. rewrite (Z.div_small yoe 400) by lia.
    cbv zeta. ring_simplify (yoe + e * 400 - (0 + e) * 400).
    ring_simplify (yoe - 0 * 400). ring.
  - replace (yoe + e * 400 + 0) with (yoe + e * 400) by ring.
    replace (yoe + 0) with yoe by ring.
    rewrite Z.div_add by lia. rewrite (Z.div_small yoe 400) by lia.
    cbv zeta. ring_simplify (yoe + e * 400 - (0 + e) * 400).
    ring_simplify (yoe - 0 * 400). ring.
Qed.

(** The day number of the date of a day number is that day number, and
    the date is one of the calendar. *)
Lemma civilFromDays_round_trip (z : Z) :
  let '(y, m, d) := civilFromDays z in
  JSDate.daysFromCivil y m d = z
  /\ 1 <= m <= 12
  /\ 1 <= d <= JSDate.daysInMonth y m
  /\ (0 <= z <= 2932896 -> 0 <= y <= 9999).
Proof.
  unfold civilFromDays.
  set (z' := z + 719468). set (era := z' / 146097).
  set (doe := z' - era * 146097).
  assert (Hdoe : 0 <= doe < 146097).
  { unfold doe, era.
    pose proof (Z.div_mod z' 146097 ltac:(lia)).
    pose proof (Z.mod_pos_bound z' 146097 ltac:(lia)). lia. }
  pose proof (dayOfEraChecked_all doe Hdoe) as C.
  unfold dayOfEraChecked in C.
  destruct (fromDayOfEra doe) as [[yoe m] d].
  rewrite !andb_true_iff in C.
  destruct C as (((((((C1 & C2) & C3) & C4) & C5) & C6) & C7) & C8).
  apply Z.leb_le in C1, C2, C3, C4, C5, C6. apply Z.eqb_eq in C7.
  split; [|split; [|split; [|]]].
  - rewrite daysFromCivil_era by lia. rewrite C7. unfold doe, z'. ring.
  - lia.
  - replace (yoe + era * 400 + (if m <=? 2 then 1 else 0))
      with (yoe + (if m <=? 2 then 1 else 0) + era * 400) by ring.
    rewrite daysInMonth_era. lia.
  - intros Hz.
    assert (He : 4 <= era <= 24).
    { unfold doe in Hdoe. unfold z' in *. lia. }
    apply orb_true_iff in C8 as [C8|C8].
    + apply negb_true_iff, andb_false_iff in C8 as [C8|C8].
      * rewrite C8. lia.
      * apply Z.eqb_neq in C8. destruct (m <=? 2); lia.
    + apply Z.leb_le in C8. unfold doe, z' in *.
      destruct (m <=? 2); lia.
Qed.

Lemma digitValue_digitChar (v : Z) :
  0 <= v <= 9 -> JSDate.digitValue (digitChar v) = Some v.
Proof.
  intros H.
  assert (E : v = 0 \/ v = 1 \/ v = 2 \/ v = 3 \/ v = 4 \/ v = 5 \/ v = 6
              \/ v = 7 \/ v = 8 \/ v = 9) by lia.
  repeat (destruct E as [->|E]; [reflexivity|]). now subst.
Qed.

Lemma digitsValue_pad4 (y : Z) :
  0 <= y <= 9999 -> JSDate.digitsValue 0 (pad4 y) = Some y.
Proof.
  intros H. unfold pad4. cbn [JSDate.digitsValue].
  pose proof (Z.div_mod y 10 ltac:(lia)).
  pose proof (Z.mod_pos_bound y 10 ltac:(lia)).
  pose proof (Z.div_mod (y / 10) 10 ltac:(lia)).
  pose proof (Z.mod_pos_bound (y / 10) 10 ltac:(lia)).
  pose proof (Z.div_mod (y / 100) 10 ltac:(lia)).
  pose proof (Z.mod_pos_bound (y / 100) 10 ltac:(lia)).
  assert (E1 : y / 10 / 10 = y / 100)
    by (rewrite Z.div_div by lia; reflexivity).
  assert (E2 : y / 100 / 10 = y / 1000)
    by (rewrite Z.div_div by lia; reflexivity).
  rewrite E1 in *. rewrite E2 in *.
  rewrite !digitValue_digitChar by lia.
  f_equal. lia.
Qed.

Lemma digitsValue_pad2 (n : Z) :
  0 <= n <= 99 -> JSDate.digitsValue 0 (pad2 n) = Some n.
Proof.
  intros H. unfold pad2. cbn [JSDate.digitsValue].
  pose proof (Z.div_mod n 10 ltac:(lia)).
  pose proof (Z.mod_pos_bound n 10 ltac:(lia)).
  rewrite !digitValue_digitChar by lia.
  f_equal. lia.
Qed.

(** A date of the calendar, written out, parses to its day. *)
Lemma parseISODate_written (y m d : Z) :
  0 <= y <= 9999 -> 1 <= m <= 12 -> 1 <= d <= JSDate.daysInMonth y m ->
  JSDate.parseISODate
    (pad4 y ++ [JSDate.hyphen] ++ pad2 m ++ [JSDate.hyphen] ++ pad2 d)
  = Some (JSDate.daysFromCivil y m d * JSDate.msPerDay).
Proof.
  intros Hy Hm Hd. pose proof (daysInMonth_le_31 y m).
  pose proof (digitsValue_pad4 y Hy) as P4.
  pose proof (digitsValue_pad2 m ltac:(lia)) as Pm.
  pose proof (digitsValue_pad2 d ltac:(lia)) as Pd.
  unfold pad4, pad2 in *. cbn [app]. unfold JSDate.parseISODate.
  rewrite N.eqb_refl. cbn [andb]. rewrite P4, Pm, Pd.
  replace ((1 <=? m) && (m <=? 12) && (1 <=? d)
           && (d <=? JSDate.daysInMonth y m))%bool with true; [reflexivity|].
  symmetry. rewrite !andb_true_iff, !Z.leb_le. lia.
Qed.

(** The date string of a moment parses back to its UTC day. *)
Lemma getTodayISO_parse (env : Env) :
  0 <= now env < 253402300800000 ->
  exists s,
    getTodayISO env = Some s
    /\ List.length s = 10%nat
    /\ JSDate.parse (dateParseFallback env) s
       = Some (now env / JSDate.msPerDay * JSDate.msPerDay).
Proof.
  intros H. unfold getTodayISO, toISODate.
  pose proof (civilFromDays_round_trip
                (now env / JSDate.msPerDay)) as R.
  destruct (civilFromDays (now env / JSDate.msPerDay))
    as [[y m] d].
  destruct R as (Rz & Rm & Rd & Ry).
  assert (Hy : 0 <= y <= 9999).
  { apply Ry. unfold JSDate.msPerDay.
    pose proof (Z.div_mod (now env) 86400000 ltac:(lia)).
    pose proof (Z.mod_pos_bound (now env) 86400000 ltac:(lia)). lia. }
  replace ((0 <=? y) && (y <=? 9999))%bool with true
    by (symmetry; rewrite andb_true_iff, !Z.leb_le; lia).
  eexists. split; [reflexivity|]. split; [reflexivity|].
  unfold JSDate.parse.
  rewrite parseISODate_written by assumption.
  now rewrite Rz.
Qed.


End ISODateFacts.

(** X12. For every moment from 1970 to the end of the year 9999,
    [getTodayISO] gives a string of ten code units that the validator's
    date parser reads back as midnight UTC of the UTC day of that
    moment. *)
Theorem today_iso_round_trip (env : Env) :
  (0 <= now env < 253402300800000)%Z ->
  exists s,
    ISODate.getTodayISO env = Some s
    /\ List.length s = 10
    /\ JSDate.parse (dateParseFallback env) s
       = Some (now env / JSDate.msPerDay * JSDate.msPerDay)%Z.
Proof. apply ISODateFacts.getTodayISO_parse. Qed.

Lemma today_iso_round_trip_witness :
  exists s,
    ISODate.getTodayISO Examples.kathmandu = Some s
    /\ List.length s = 10
    /\ JSDate.parse (dateParseFallback Examples.kathmandu) s
       = Some (now Examples.kathmandu / JSDate.msPerDay * JSDate.msPerDay)%Z.
Proof.
  apply (today_iso_round_trip Examples.kathmandu). vm_compute.
  split; [discriminate | reflexivity].
Defined.



(** ** The message under the form *)

Module FormMessageFacts.

Import FormMessage.

Lemma step_at_most_one (s : State) (ev : Event) :
  List.length (shown s) <= 1 -> List.length (shown (step s ev)) <= 1.
Proof.
  intros H. destruct ev as [message type | t]; simpl.
  - destruct (shown s) as [|m [|m' l]]; simpl in *; lia.
  - destruct (existsb (Timer_eqb t) (timers s)); [|assumption].
    destruct t as [e | e]; simpl.
    + now rewrite length_map.
    + destruct (shown s) as [|m [|m' l]]; simpl in *; try lia.
      destruct (negb (element m =? e)); simpl; lia.
Qed.

End FormMessageFacts.

(** X14. Under the form of the first script there is never more than one
    message: showing a message takes the one that is there away.  And a
    message that is shown is left alone by the timers of other messages:
    it goes only when a new message is shown or its own timer of 300 ms
    runs out. *)
Theorem form_message_at_most_one
    (evs : list FormMessage.Event) (t : FormMessage.Timer)
    (m : FormMessage.Message) :
  let s := FormMessage.run FormMessage.initial evs in
  List.length (FormMessage.shown s) <= 1
  /\ (In m (FormMessage.shown s) ->
      t <> FormMessage.RemoveTimer (FormMessage.element m) ->
      exists m',
        In m' (FormMessage.shown (FormMessage.step s (FormMessage.Fire t)))
        /\ FormMessage.element m' = FormMessage.element m
        /\ FormMessage.text m' = FormMessage.text m
        /\ FormMessage.success m' = FormMessage.success m).
Proof.
  intros s. split.
  - unfold s, FormMessage.run.
    assert (G : forall s0, List.length (FormMessage.shown s0) <= 1 ->
                  List.length
                    (FormMessage.shown (fold_left FormMessage.step evs s0))
                  <= 1).
    { induction evs as [|ev evs IH]; intros s0 H0; simpl; [assumption|].
      now apply IH, FormMessageFacts.step_at_most_one. }
    apply G. simpl. lia.
  - intros Hin Ht. simpl.
    destruct (existsb (FormMessage.Timer_eqb t) (FormMessage.timers s));
      [|now exists m].
    destruct t as [e | e]; simpl.
    + exists (if FormMessage.element m =? e
              then FormMessage.mkMessage (FormMessage.element m)
                     (FormMessage.text m) (FormMessage.success m) true
              else m).
      split.
      * apply in_map_iff. now exists m.
      * now destruct (FormMessage.element m =? e).
    + exists m. split; [|auto]. apply filter_In. split; [assumption|].
      apply negb_true_iff, Nat.eqb_neq. congruence.
Qed.

Lemma form_message_at_most_one_witness :
  let s := FormMessage.run FormMessage.initial
             [FormMessage.Show (lit "first") (lit "error");
              FormMessage.Show (lit "second") (lit "success")] in
  exists m',
    In m' (FormMessage.shown
             (FormMessage.step s (FormMessage.Fire (FormMessage.FadeTimer 0))))
    /\ FormMessage.element m' = 1
    /\ FormMessage.text m' = lit "second"
    /\ FormMessage.success m' = true.
Proof.
  apply (proj2 (form_message_at_most_one
                  [FormMessage.Show (lit "first") (lit "error");
                   FormMessage.Show (lit "second") (lit "success")]
                  (FormMessage.FadeTimer 0)
                  (FormMessage.mkMessage 1 (lit "second") true false))).
  - vm_compute. auto.
  - discriminate.
Defined.

(** ** More on the sequencer *)

(** X15. Editing a control changes that control and, by itself, not the
    status; it sets the debounce timer, and when that runs out an error
    status is cleared while any other status (the announcement of the
    send, the thanks) is left as it is. *)
Theorem input_clears_error_only
    (env : Env) (p : Sequencer.Page) (edited : FormData) :
  let p1 := Sequencer.step env p (Sequencer.Input edited) in
  let p2 := Sequencer.step env p1 (Sequencer.Fires Sequencer.DebounceTimer) in
  Sequencer.fields p1 = edited
  /\ Sequencer.statusText p1 = Sequencer.statusText p
  /\ Sequencer.statusClass p1 = Sequencer.statusClass p
  /\ Sequencer.isPending Sequencer.DebounceTimer p1 = true
  /\ Sequencer.fields p2 = edited
  /\ (Sequencer.statusClass p = Sequencer.ErrorClass ->
      Sequencer.statusText p2 = [] /\
      Sequencer.statusClass p2 = Sequencer.NoClass)
  /\ (Sequencer.statusClass p <> Sequencer.ErrorClass ->
      Sequencer.statusText p2 = Sequencer.statusText p /\
      Sequencer.statusClass p2 = Sequencer.statusClass p).
Proof.
  cbv zeta. unfold Sequencer.step. simpl.
  repeat split.
  - unfold Sequencer.isPending. simpl. rewrite existsb_app. simpl.
    apply orb_true_r.
  - unfold Sequencer.clearErrorStatus. simpl.
    now destruct (Sequencer.statusClass p).
  - unfold Sequencer.clearErrorStatus. simpl. now rewrite H.
  - unfold Sequencer.clearErrorStatus. simpl. now rewrite H.
  - unfold Sequencer.clearErrorStatus. simpl.
    destruct (Sequencer.statusClass p); try reflexivity. now destruct H.
  - unfold Sequencer.clearErrorStatus. simpl.
    destruct (Sequencer.statusClass p); try reflexivity. now destruct H.
Qed.

Lemma input_clears_error_only_witness :
  let p := Sequencer.step Examples.kathmandu
             (Examples.idlePage Examples.blank) Sequencer.Submit in
  let p2 := Sequencer.step Examples.kathmandu
              (Sequencer.step Examples.kathmandu p
                 (Sequencer.Input Examples.booking))
              (Sequencer.Fires Sequencer.DebounceTimer) in
  Sequencer.statusClass p = Sequencer.ErrorClass
  /\ Sequencer.statusText p2 = []
  /\ Sequencer.statusClass p2 = Sequencer.NoClass.
Proof.
  cbv zeta. split; [reflexivity|].
  apply (proj1 (proj2 (proj2 (proj2 (proj2 (proj2
           (input_clears_error_only Examples.kathmandu
              (Sequencer.step Examples.kathmandu
                 (Examples.idlePage Examples.blank) Sequencer.Submit)
              Examples.booking))))))).
  reflexivity.
Defined.

(** X16. The timer that clears the thanks is not cancelled by what comes
    after: when the send completes and the form, back at its defaults, is
    submitted again and refused, the error is shown with that timer still
    set, and when it runs out the error is wiped. *)
Theorem thanks_timer_wipes_later_error
    (env env' : Env) (p : Sequencer.Page) :
  Validation.isValid (validateFormData env' (Sequencer.defaults p)) = false ->
  let p1 := Sequencer.step env p (Sequencer.Fires Sequencer.SendTimer) in
  let p2 := Sequencer.step env' p1 Sequencer.Submit in
  let p3 := Sequencer.step env' p2 (Sequencer.Fires Sequencer.StatusTimer) in
  Sequencer.statusText p1 = Sequencer.msgThanks
  /\ Sequencer.statusClass p2 = Sequencer.ErrorClass
  /\ Sequencer.statusText p2
     = Validation.message (validateFormData env' (Sequencer.defaults p))
  /\ Sequencer.isPending Sequencer.StatusTimer p2 = true
  /\ Sequencer.statusText p3 = []
  /\ Sequencer.statusClass p3 = Sequencer.NoClass.
Proof.
  intros Hinv p1 p2 p3.
  assert (P1 : p1 = Sequencer.mkPage
                      (Sequencer.defaults p) (Sequencer.defaults p)
                      Sequencer.msgThanks Sequencer.SuccessClass
                      (Sequencer.removeFirst Sequencer.SendTimer
                         (Sequencer.pending p)
                       ++ [(Sequencer.StatusTimer, 5000%Z)]))
    by reflexivity.
  assert (P2 : p2 = Sequencer.mkPage
                      (Sequencer.defaults p) (Sequencer.defaults p)
                      (Validation.message
                         (validateFormData env' (Sequencer.defaults p)))
                      Sequencer.ErrorClass
                      (Sequencer.removeFirst Sequencer.SendTimer
                         (Sequencer.pending p)
                       ++ [(Sequencer.StatusTimer, 5000%Z)])).
  { unfold p2, Sequencer.step. rewrite P1.
    cbn [Sequencer.react Sequencer.before Sequencer.fields].
    unfold Sequencer.handleFormSubmit. rewrite Hinv. reflexivity. }
  split; [now rewrite P1|]. split; [now rewrite P2|].
  split; [now rewrite P2|]. split.
  - rewrite P2. unfold Sequencer.isPending. cbn [Sequencer.pending].
    rewrite existsb_app. simpl. apply orb_true_r.
  - unfold p3. rewrite P2. split; reflexivity.
Qed.

Lemma thanks_timer_wipes_later_error_witness :
  let p := Sequencer.step Examples.kathmandu
             (Examples.idlePage Examples.booking) Sequencer.Submit in
  let p3 := Sequencer.step Examples.kathmandu
              (Sequencer.step Examples.kathmandu
                 (Sequencer.step Examples.kathmandu p
                    (Sequencer.Fires Sequencer.SendTimer))
                 Sequencer.Submit)
              (Sequencer.Fires Sequencer.StatusTimer) in
  Sequencer.statusText p3 = [] /\ Sequencer.statusClass p3 = Sequencer.NoClass.
Proof.
  cbv zeta.
  destruct (thanks_timer_wipes_later_error Examples.kathmandu
              Examples.kathmandu
              (Sequencer.step Examples.kathmandu
                 (Examples.idlePage Examples.booking) Sequencer.Submit)
              eq_refl)
    as (_ & _ & _ & _ & A & B).
  split; [exact A | exact B].
Defined.

(** ** More on strings *)

Lemma dropWhile_suffix (p : char -> bool) (s : jsstring) :
  exists w, s = w ++ dropWhile p s /\ Forall (fun c => p c = true) w.
Proof.
  induction s as [|c s (w & E & F)]; simpl.
  - now exists [].
  - destruct (p c) eqn:Hc.
    + exists (c :: w). split; [simpl; now rewrite <- E | now constructor].
    + now exists [].
Qed.

Lemma dropWhile_head (p : char -> bool) (s : jsstring) (c : char)
    (s' : jsstring) :
  dropWhile p s = c :: s' -> p c = false.
Proof.
  induction s as [|x s IH]; simpl; [discriminate|].
  destruct (p x) eqn:Hx; [assumption|]. now intros [= <- _].
Qed.

(** What [trim] gives has nothing left to trim. *)
Lemma trim_trim (s : jsstring) : trim (trim s) = trim s.
Proof.
  unfold trim, trimEnd, trimStart.
  set (x := dropWhile isWhiteSpace s).
  set (y := dropWhile isWhiteSpace (rev x)).
  assert (Hy : dropWhile isWhiteSpace y = y).
  { apply dropWhile_stops. intros c s' E. subst y.
    now apply dropWhile_head in E. }
  assert (Hr : dropWhile isWhiteSpace (rev y) = rev y).
  { apply dropWhile_stops. intros c s' E.
    destruct (dropWhile_suffix isWhiteSpace (rev x)) as (w & Ew & _).
    fold y in Ew. apply (f_equal (@rev char)) in Ew.
    rewrite rev_involutive, rev_app_distr, E in Ew. simpl in Ew.
    subst x. now apply dropWhile_head in Ew. }
  now rewrite Hr, rev_involutive, Hy.
Qed.

(** ** The handler of the first script *)

Lemma fold_required (l : list jsstring) (acc : bool) :
  fold_left (fun acc value => if isEmpty (trim value) then false else acc)
            l acc
  = acc && forallb (fun value => negb (isEmpty (trim value))) l.
Proof.
  revert acc. induction l as [|v l IH]; intros acc; simpl.
  - now rewrite andb_true_r.
  - rewrite IH. destruct (isEmpty (trim v)); simpl; [|reflexivity].
    now rewrite andb_false_r.
Qed.

(** X18. The handler of the first script accepts a form exactly when all
    three of its checks pass, each looked at on its own: every required
    control has something left after trimming; the email control is
    absent, empty or matched by the email pattern; the phone control is
    absent, empty or written with digits, [+], [-], brackets and white
    space only. *)
Theorem legacy_accepts_iff (f : Legacy.Form) :
  Legacy.onSubmit f
  = forallb (fun value => negb (isEmpty (trim value)))
            (Legacy.requiredValues f)
    && match Legacy.emailInput f with
       | Some value => isEmpty value || test emailRegex value
       | None => true
       end
    && match Legacy.phoneInput f with
       | Some value => isEmpty value || forallb Legacy.phoneChar value
       | None => true
       end.
Proof.
  unfold Legacy.onSubmit. rewrite fold_required. simpl.
  destruct (forallb _ (Legacy.requiredValues f)); simpl.
  - destruct (Legacy.emailInput f) as [e|], (Legacy.phoneInput f) as [p|];
      simpl; unfold Legacy.phonePattern; rewrite ?test_plus_class;
      try destruct (isEmpty e); try destruct (test emailRegex e);
      try destruct (isEmpty p); try destruct (forallb Legacy.phoneChar p);
      reflexivity.
  - destruct (Legacy.emailInput f) as [e|], (Legacy.phoneInput f) as [p|];
      simpl;
      try destruct (negb (isEmpty e) && negb (test emailRegex e));
      try destruct (negb (isEmpty p)
                    && negb (test Legacy.phonePattern p));
      reflexivity.
Qed.

(** ** The enhanced handler and the validator *)

(** X19. The enhanced handler sends exactly the bookings whose trimmed
    values pass the first four rules of the v2.0.0 validator (honeypot,
    required fields, email, phone), provided the date and the service
    type are empty when they are empty after trimming; and what it sends
    is the trimmed values. *)
Theorem enhanced_agrees_with_validator
    (env : Env) (company : jsstring) (raw : FormData) :
  honeypot env = Some company ->
  (trim (date raw) = [] -> date raw = []) ->
  (trim (serviceType raw) = [] -> serviceType raw = []) ->
  (Enhanced.onSubmit company raw = Enhanced.Sending (Enhanced.collect raw)
   <-> forallb (fun r => negb (violates env (Enhanced.collect raw) r))
               [Spam; MissingField; BadEmail; BadPhone] = true)
  /\ (forall data, Enhanced.onSubmit company raw = Enhanced.Sending data ->
                   data = Enhanced.collect raw).
Proof.
  intros Hh Hd Hs.
  assert (Hreq : Enhanced.someRequiredEmpty (Enhanced.collect raw)
                 = someFieldMissing (Enhanced.collect raw)).
  { unfold Enhanced.someRequiredEmpty, Enhanced.values, someFieldMissing,
      requiredFields, Enhanced.collect. simpl.
    rewrite !fieldMissing_trim, !trim_trim, !orb_false_r.
    assert (D : isEmpty (date raw) = isEmpty (trim (date raw))).
    { destruct (trim (date raw)) eqn:E; [now rewrite Hd|].
      destruct (date raw); [now compute in E | reflexivity]. }
    assert (S : isEmpty (serviceType raw) = isEmpty (trim (serviceType raw))).
    { destruct (trim (serviceType raw)) eqn:E; [now rewrite Hs|].
      destruct (serviceType raw); [now compute in E | reflexivity]. }
    now rewrite D, S. }
  split.
  - unfold Enhanced.onSubmit. cbn [forallb violates].
    unfold honeypotFilled, isValidEmail, isValidPhone.
    rewrite Hh, Hreq. cbv zeta.
    destruct (isEmpty (trim company)); cbn [negb andb];
      [|split; discriminate].
    destruct (someFieldMissing (Enhanced.collect raw)); cbn [negb andb];
      [split; discriminate|].
    destruct (test emailRegex (email (Enhanced.collect raw)));
      cbn [negb andb]; [|split; discriminate].
    destruct (Nat.ltb_spec
                (List.length (stripNonDigits (phone (Enhanced.collect raw))))
                10) as [L|L].
    + replace (10 <=? _) with false by (symmetry; apply Nat.leb_gt; lia).
      split; discriminate.
    + replace (10 <=? _) with true by (symmetry; apply Nat.leb_le; lia).
      split; reflexivity.
  - intros data. unfold Enhanced.onSubmit.
    destruct (negb (isEmpty (trim company))); [discriminate|].
    destruct (Enhanced.someRequiredEmpty (Enhanced.collect raw));
      [discriminate|].
    destruct (negb (test emailRegex (email (Enhanced.collect raw))));
      [discriminate|].
    destruct (_ <? 10); [discriminate|]. now intros [= <-].
Qed.

Lemma enhanced_agrees_with_validator_witness :
  Enhanced.onSubmit []
    (Examples.withEmail (lit " a@b.c ") Examples.booking)
  = Enhanced.Sending
      (Enhanced.collect (Examples.withEmail (lit " a@b.c ") Examples.booking)).
Proof.
  destruct (enhanced_agrees_with_validator Examples.kathmandu []
              (Examples.withEmail (lit " a@b.c ") Examples.booking)
              eq_refl) as [A _].
  - vm_compute. discriminate.
  - vm_compute. discriminate.
  - apply A. reflexivity.
Defined.

(** ** The shape of an accepted address *)

Lemma Matches_cat_inv (r1 r2 : regex) (s : jsstring) :
  Matches (Cat r1 r2) s ->
  exists s1 s2, s = s1 ++ s2 /\ Matches r1 s1 /\ Matches r2 s2.
Proof. intros H. inversion H; subst. eauto. Qed.

Lemma Matches_plus_class (p : char -> bool) (s : jsstring) :
  Matches (Plus (Class p)) s <-> s <> [] /\ Forall (fun c => p c = true) s.
Proof.
  rewrite <- test_Matches, test_plus_class, andb_true_iff, negb_true_iff,
    isEmpty_false, forallb_forall, Forall_forall. reflexivity.
Qed.

Lemma Matches_chr (c : char) (s : jsstring) : Matches (Chr c) s <-> s = [c].
Proof.
  unfold Chr. split.
  - intros H. inversion H; subst.
    match goal with
    | [ E : (_ =? _)%N = true |- _ ] => apply N.eqb_eq in E; now subst
    end.
  - intros ->. constructor. apply N.eqb_refl.
Qed.

Lemma notSpaceNorAt_true (c : char) :
  notSpaceNorAt c = true <-> isWhiteSpace c = false /\ c <> at_sign.
Proof.
  unfold notSpaceNorAt.
  rewrite negb_true_iff, orb_false_iff, N.eqb_neq. reflexivity.
Qed.

Lemma count_occ_none (l : jsstring) (c : char) :
  Forall (fun x => x <> c) l -> count_occ N.eq_dec l c = 0.
Proof.
  intros H. apply count_occ_not_In. rewrite Forall_forall in H.
  intros Hin. now apply (H c Hin).
Qed.

(** X20. [isValidEmail] accepts exactly the strings made of a non-empty
    local part, an [@], a non-empty domain, a dot and a non-empty last
    part, none of the three parts holding white space or an [@] (the
    domain may hold further dots); so an accepted address has exactly one
    [@], no white space, and at least five code units. *)
Theorem isValidEmail_shape (e : jsstring) :
  (isValidEmail e = true <->
   exists local domain tld,
     e = local ++ at_sign :: domain ++ dot :: tld
     /\ local <> [] /\ domain <> [] /\ tld <> []
     /\ Forall (fun c => notSpaceNorAt c = true) (local ++ domain ++ tld))
  /\ (isValidEmail e = true ->
      count_occ N.eq_dec e at_sign = 1
      /\ Forall (fun c => isWhiteSpace c = false) e
      /\ 5 <= List.length e).
Proof.
  assert (Shape :
    isValidEmail e = true <->
    exists local domain tld,
      e = local ++ at_sign :: domain ++ dot :: tld
      /\ local <> [] /\ domain <> [] /\ tld <> []
      /\ Forall (fun c => notSpaceNorAt c = true) (local ++ domain ++ tld)).
  { unfold isValidEmail, emailRegex. rewrite test_Matches. split.
    - intros H.
      apply Matches_cat_inv in H as (l & r1 & -> & Hl & H).
      apply Matches_cat_inv in H as (a & r2 & -> & Ha & H).
      apply Matches_cat_inv in H as (dm & r3 & -> & Hd & H).
      apply Matches_cat_inv in H as (dt & t & -> & Hdt & Ht).
      apply Matches_chr in Ha, Hdt. subst a dt.
      apply Matches_plus_class in Hl as [Hl1 Hl2], Hd as [Hd1 Hd2],
        Ht as [Ht1 Ht2].
      exists l, dm, t. simpl. repeat split; try assumption.
      now rewrite !Forall_app.
    - intros (l & dm & t & -> & Hl & Hd & Ht & Hall).
      rewrite !Forall_app in Hall. destruct Hall as (Al & Ad & At).
      constructor; [now apply Matches_plus_class|].
      change (at_sign :: dm ++ dot :: t)
        with ([at_sign] ++ dm ++ [dot] ++ t).
      constructor; [now apply Matches_chr|].
      constructor; [now apply Matches_plus_class|].
      constructor; [now apply Matches_chr | now apply Matches_plus_class]. }
  split; [exact Shape|].
  intros H. split; [|split].
  - apply Shape in H as (l & dm & t & -> & _ & _ & _ & Hall).
    rewrite !Forall_app in Hall. destruct Hall as (Al & Ad & At).
    assert (F : forall x, Forall (fun c => notSpaceNorAt c = true) x ->
                          count_occ N.eq_dec x at_sign = 0).
    { intros x Hx. apply count_occ_none.
      eapply Forall_impl; [|exact Hx].
      intros c Hc. now apply notSpaceNorAt_true in Hc. }
    rewrite count_occ_app. simpl.
    destruct (N.eq_dec at_sign at_sign) as [_|N]; [|now destruct N].
    rewrite count_occ_app. simpl.
    destruct (N.eq_dec dot at_sign) as [E|_]; [discriminate E|].
    rewrite !F by assumption. reflexivity.
  - now apply isValidEmail_no_whitespace.
  - apply Shape in H as (l & dm & t & -> & Hl & Hd & Ht & _).
    rewrite length_app. simpl. rewrite length_app. simpl.
    destruct l; [now destruct Hl|]. destruct dm; [now destruct Hd|].
    destruct t; [now destruct Ht|]. simpl. lia.
Qed.

Lemma isValidEmail_shape_witness :
  count_occ N.eq_dec (lit "ann.lee@studio.example.np") at_sign = 1
  /\ Forall (fun c => isWhiteSpace c = false)
            (lit "ann.lee@studio.example.np")
  /\ 5 <= List.length (lit "ann.lee@studio.example.np").
Proof.
  apply (proj2 (isValidEmail_shape (lit "ann.lee@studio.example.np"))).
  reflexivity.
Defined.

(** ** The phone rule *)

(** X21. [isValidPhone] looks at the digits only: putting characters that
    are no digits anywhere into a phone number, or taking them out,
    changes nothing; putting any characters in never makes an accepted
    number refused; and an accepted number has at least ten code
    units. *)
Theorem isValidPhone_counts_digits (s t u : jsstring) :
  (Forall (fun c => isDigit c = false) t ->
   isValidPhone (s ++ t ++ u) = isValidPhone (s ++ u))
  /\ (isValidPhone (s ++ u) = true -> isValidPhone (s ++ t ++ u) = true)
  /\ (isValidPhone s = true -> 10 <= List.length s).
Proof.
  unfold isValidPhone, stripNonDigits. split; [|split].
  - intros H. rewrite !filter_app.
    replace (filter isDigit t) with (@nil char); [reflexivity|].
    symmetry. induction H as [|c t Hc _ IH]; simpl; [reflexivity|].
    now rewrite Hc.
  - rewrite !filter_app, !length_app, !Nat.leb_le. lia.
  - rewrite Nat.leb_le. pose proof (filter_length_le isDigit s). lia.
Qed.

Lemma isValidPhone_counts_digits_witness :
  isValidPhone (lit "(123) 456-7890") = isValidPhone (lit "1234567890")
  /\ isValidPhone (lit "call 123-456-7890 after six") = true.
Proof.
  split.
  - apply (proj1 (isValidPhone_counts_digits [] (lit "(") (lit "123) 456-7890"))).
    repeat constructor.
  - apply (proj1 (proj2 (isValidPhone_counts_digits
                           (lit "call 123-456-7890") (lit " after six") []))).
    reflexivity.
Defined.

(** ** Dates that are no dates *)

(** X24. A booking in order whose date field holds something that
    [new Date] cannot read is accepted: the comparison with an invalid
    date is false, so the date rule lets it through. *)
Theorem invalid_date_accepted (env : Env) (data : FormData) :
  honeypotFilled env = false ->
  someFieldMissing data = false ->
  isValidEmail (email data) = true ->
  isValidPhone (phone data) = true ->
  JSDate.parse (dateParseFallback env) (date data) = None ->
  validateFormData env data = render Valid.
Proof.
  intros H1 H2 H3 H4 Hparse.
  rewrite (validate_after_four_rules env data H1 H2 H3 H4).
  now rewrite (date_rule_unparsed env data Hparse).
Qed.

Lemma invalid_date_accepted_witness :
  validateFormData Examples.kathmandu
    (Examples.withDate (lit "soon") Examples.booking)
  = render Valid.
Proof.
  apply invalid_date_accepted; reflexivity.
Defined.

(** ** Clicks on the dots *)

Module DotFacts.

Import Gallery.

Lemma find_setTransform_same (cid : jsstring) (t : Q) (cats : list Category)
    (c : Category) :
  find (fun x => StrictEq.str (id x) cid) cats = Some c ->
  find (fun x => StrictEq.str (id x) cid) (setTransform cid t cats)
  = Some (mkCategory (id c) (hidden c) (active c) (itemCount c) (Some t)).
Proof.
  induction cats as [|x cats IH]; simpl; [discriminate|].
  destruct (StrictEq.str (id x) cid) eqn:E; simpl.
  - intros [= <-]. now rewrite E.
  - intros H. rewrite E. now apply IH.
Qed.

Lemma find_setTransform_other (cid cid' : jsstring) (t : Q)
    (cats : list Category) :
  cid' <> cid ->
  find (fun x => StrictEq.str (id x) cid') (setTransform cid t cats)
  = find (fun x => StrictEq.str (id x) cid') cats.
Proof.
  intros Hne. induction cats as [|x cats IH]; simpl; [reflexivity|].
  destruct (StrictEq.str (id x) cid) eqn:E; simpl.
  - apply GalleryFacts.str_true in E.
    replace (StrictEq.str (id x) cid') with false; [reflexivity|].
    symmetry. apply GalleryFacts.str_false. congruence.
  - now rewrite IH.
Qed.

End DotFacts.

(** X25. A click on dot [i] moves the track of the category the dots were
    made for to page [i], marks dot [i] and no other, and leaves the
    tracks of the categories with other ids where they were; when the
    page no longer has that category, or it has no track, the click
    changes nothing. *)
Theorem dot_click_moves_own_category
    (d : Gallery.Doc) (i : nat) :
  let d' := Gallery.dotClick i d in
  (forall c t,
      Gallery.getElementById (Gallery.dotsFor d) (Gallery.categories d)
      = Some c ->
      Gallery.container c = Some t ->
      i < List.length (Gallery.dots d) ->
      Gallery.dots d' = Carousel.dotsAt (List.length (Gallery.dots d)) i
      /\ Gallery.transformOf (Gallery.dotsFor d) d'
         = Some (Carousel.pageOffsetPercent
                   (Z.of_nat i) (Carousel.itemsPerPage (Gallery.innerWidth d)))
      /\ (forall cid, cid <> Gallery.dotsFor d ->
                      Gallery.transformOf cid d' = Gallery.transformOf cid d))
  /\ (Gallery.getElementById (Gallery.dotsFor d) (Gallery.categories d)
      = None -> d' = d)
  /\ (forall c,
        Gallery.getElementById (Gallery.dotsFor d) (Gallery.categories d)
        = Some c ->
        Gallery.container c = None -> d' = d).
Proof.
  cbv zeta. unfold Gallery.dotClick, Gallery.moveCarousel.
  split; [|split].
  - intros c t Hget Hc Hi. rewrite Hget, Hc.
    unfold Gallery.updateActiveDot, Gallery.transformOf.
    cbn [Gallery.dots Gallery.categories Gallery.dotsFor].
    split; [reflexivity|].
    unfold Gallery.getElementById in Hget.
    destruct (isEmpty (Gallery.dotsFor d)); [discriminate|].
    split.
    + now rewrite (DotFacts.find_setTransform_same _ _ _ c Hget).
    + intros cid Hne. now rewrite DotFacts.find_setTransform_other.
  - intros Hget. now rewrite Hget.
  - intros c Hget Hc. now rewrite Hget, Hc.
Qed.

Lemma dot_click_moves_own_category_witness :
  let d' := Gallery.dotClick 1 Gallery.twoCategories in
  Gallery.dots d' = [false; true]
  /\ Gallery.transformOf (lit "wedding") d'
     = Some (Carousel.pageOffsetPercent 1 3)
  /\ Gallery.transformOf (lit "portrait") d' = Some 0%Q.
Proof.
  destruct (proj1 (dot_click_moves_own_category Gallery.twoCategories 1)
              (Gallery.mkCategory (lit "wedding") false true 4 (Some 0%Q))
              0%Q eq_refl eq_refl) as (A & B & C).
  - simpl. lia.
  - split; [exact A|]. split; [exact B|].
    rewrite (C (lit "portrait")); [reflexivity|].
    vm_compute. discriminate.
Defined.
